(** * Roger voicemail service: a shallow embedding of [main.go]

    The service receives a completed forwarded call from the telephony
    provider, looks the two phone numbers up in the datastore and either
    posts the recording into a conversation of the platform or stores it
    as a pending voicemail.  This file embeds the Go code as functions in
    a small state-and-panic monad over an explicit world (datastore
    contents, datastore faults, the remote platform, the log) and proves
    the properties of the delivery logic. *)

From Stdlib Require Import ZArith Lia Ascii String DecimalString.
From Stdlib Require DecimalPos DecimalZ.
From stdpp Require Import base option strings gmap fin_maps.

Local Open Scope string_scope.
Local Open Scope Z_scope.

(** ** Go library functions used by the code *)

Module Go.

(** [strconv.FormatInt(i, 10)], also what the verb [%d] prints. *)
Definition FormatInt (i : Z) : string := NilZero.string_of_int (Z.to_int i).

(** [s[:n]] on a string; the code only slices with [n <= len(s)]. *)
Definition slice_to (s : string) (n : nat) : string := substring 0 n s.

(** The loop of [path.Ext], with [n = i + 1]:
    [for i := len(path) - 1; i >= 0 && path[i] != '/'; i--
       if path[i] == '.'  return path[i:]]
    and [return ""] after it. *)
Fixpoint ExtFrom (path : string) (n : nat) : string :=
  match n with
  | O => ""
  | S i =>
      match String.get i path with
      | Some c =>
          if Ascii.eqb c "/" then ""
          else if Ascii.eqb c "." then substring i (String.length path - i) path
          else ExtFrom path i
      | None => ""
      end
  end.

Definition Ext (path : string) : string := ExtFrom path (String.length path).

End Go.

(** ** The audio URL rewrite of [callHandler] (lines 115-118) *)

Definition normalizeAudioURL (audioURL : string) : string :=
  let ext := Go.Ext audioURL in
  if decide (ext = "" \/ ext = ".wav")
  then Go.slice_to audioURL (String.length audioURL - String.length ext) +:+ ".mp3"
  else audioURL.


(** ** Data model (lines 39-72) *)

(** [datastore.Key] without parent and namespace, which the code never sets. *)
Record Key := { Kind : string; ID : Z; Name : string }.

Definition IncompleteKey (kind : string) : Key := {| Kind := kind; ID := 0; Name := "" |}.
Definition NameKey (kind name : string) : Key := {| Kind := kind; ID := 0; Name := name |}.
Definition IDKey (kind : string) (id : Z) : Key := {| Kind := kind; ID := id; Name := "" |}.

(** [Key.Incomplete]: neither a numeric id nor a name. *)
Definition Incomplete (k : Key) : bool := (ID k =? 0) && String.eqb (Name k) "".

(** The ids of keys, accounts and streams are [int64] in the source.  The
    code compares and prints them and computes nothing with them, so they
    are integers here and nothing wraps around.

    [Account] is a pointer in the source: [None] is the nil key. *)
Record Identity := { Account : option Key; Available : bool; Status : string }.

Module Participant.
Record t := { Id : Z }.
End Participant.

Record PendingVoicemail := { From : string; To : string; AudioURL : string; Delivered : bool }.

Module Stream.
Record t := { Id : Z; Others : list Participant.t }.
End Stream.

(** [url.Values]: a map from field names to their values. *)
Abbreviation Values := (gmap string (list string)).

(** [Values.Get]: the first value of the field, or the empty string. *)
Definition Values_Get (v : Values) (k : string) : string :=
  match v !! k with
  | Some (x :: _) => x
  | _ => ""
  end.

(** *** Errors

    One constructor for each [fmt.Errorf] of the code, with the values it
    formats, and one for the error values that the libraries make. *)
Inductive error :=
| LibError (msg : string)
| ErrEmptyRecipient
| ErrStillNoAccount (to : string)
| ErrStoreFailed (to : string) (storeErr : error)
| ErrStoredPending (to : string) (id : Z)
| ErrNot200 (path : string) (accountId : Z) (status : string).

(** [err.Error()] *)
Fixpoint Error (e : error) : string :=
  match e with
  | LibError msg => msg
  | ErrEmptyRecipient => "empty recipient (did someone call us?)"
  | ErrStillNoAccount to =>
      "retried delivery but " +:+ to +:+ " still doesn't have an account"
  | ErrStoreFailed to storeErr =>
      "receiver " +:+ to +:+ " doesn't have an account, failed to store pending voicemail: "
      +:+ Error storeErr
  | ErrStoredPending to id =>
      "receiver " +:+ to +:+ " doesn't have an account, stored pending voicemail ("
      +:+ Go.FormatInt id +:+ ")"
  | ErrNot200 path accountId status =>
      path +:+ " (on behalf of " +:+ Go.FormatInt accountId +:+ ") returned " +:+ status
  end.

(** *** The remote platform *)

(** The request that [postStream] sends: the path of its URL, the
    [on_behalf_of] query parameter and the form fields of the body. *)
Record HTTPPost := { URLPath : string; on_behalf_of : string; Fields : Values }.

(** What comes back from reading and decoding a response body: a read
    error, a JSON error (the stream is allocated before decoding, and is
    returned with whatever was decoded), or the decoded stream. *)
Inductive Body :=
| Unreadable (e : string)
| Malformed (partial : Stream.t) (e : string)
| Decoded (stream : Stream.t).

Inductive HTTPResult :=
| NetError (e : string)
| Reply (StatusCode : Z) (Status : string) (body : Body).

(** The arguments of one call of [postStream]. *)
Record PostCall := { accountId : Z; streamId : Z; fields : Values }.

(** *** The datastore query iterator *)

(** What one call of [t.Next] returns: [iterator.Done], another error, or
    the key and the contents of the next entity. *)
Inductive NextResult :=
| Done
| NextError (e : string)
| Next (key : Key) (voicemail : PendingVoicemail).

(** *** The log: one constructor for each [log.Printf] that is reached
    from [callHandler] or [flushPendingQueue], with its arguments. *)
Inductive LogEntry :=
| LogIncomingCall (query : Values)
| LogParseFailed (e : string)
| LogVoicemail (from to audioURL : string)
| LogDeliverFailed (err : error)
| LogGetPendingFailed (e : string)
| LogPendingFailed (err : error)
| LogPendingDelivered (to : string)
| LogHandled (method path : string).

(** ** The world the program runs in

    The entities of the two kinds are keyed by the id and the name of
    their key.  The environment is deterministic but arbitrary: the
    [n]-th datastore call ([Get] or [Put]) fails when [storeFault n] is
    an error, the [n]-th request to the platform is answered by
    [platform n], and the [n]-th [Next] of a query for the undelivered
    pending voicemails returns [queryResults n]. *)
Record World := {
  identities : gmap (Z * string) Identity;
  pending : gmap (Z * string) PendingVoicemail;
  storeFault : nat -> option string;
  storeOps : nat;
  platform : nat -> HTTPPost -> HTTPResult;
  posts : list PostCall;
  queryResults : nat -> NextResult;
  logs : list LogEntry
}.

Definition key_of (k : Key) : Z * string := (ID k, Name k).

Definition tick (w : World) : World :=
  {| identities := identities w; pending := pending w;
     storeFault := storeFault w; storeOps := S (storeOps w);
     platform := platform w; posts := posts w;
     queryResults := queryResults w; logs := logs w |}.

Definition set_pending (p : gmap (Z * string) PendingVoicemail) (w : World) : World :=
  {| identities := identities w; pending := p;
     storeFault := storeFault w; storeOps := storeOps w;
     platform := platform w; posts := posts w;
     queryResults := queryResults w; logs := logs w |}.

Definition add_post (c : PostCall) (w : World) : World :=
  {| identities := identities w; pending := pending w;
     storeFault := storeFault w; storeOps := storeOps w;
     platform := platform w; posts := posts w ++ [c];
     queryResults := queryResults w; logs := logs w |}.

Definition add_log (l : LogEntry) (w : World) : World :=
  {| identities := identities w; pending := pending w;
     storeFault := storeFault w; storeOps := storeOps w;
     platform := platform w; posts := posts w;
     queryResults := queryResults w; logs := logs w ++ [l] |}.

(** ** The monad: state passing over the world, with panics *)

Inductive Res (A : Type) :=
| Ok (a : A) (w : World)
| Panic (msg : string) (w : World).
Arguments Ok {A} a w.
Arguments Panic {A} msg w.

Definition M (A : Type) : Type := World -> Res A.

Definition ret {A} (a : A) : M A := fun w => Ok a w.

Definition bind {A B} (c : M A) (k : A -> M B) : M B :=
  fun w => match c w with
           | Ok a w' => k a w'
           | Panic msg w' => Panic msg w'
           end.

Definition panic {A} (msg : string) : M A := fun w => Panic msg w.

Notation "'let*' x := c 'in' k" := (bind c (fun x => k))
  (at level 10, x pattern, c at level 100, k at level 200).

Definition log_Printf (l : LogEntry) : M unit := fun w => Ok tt (add_log l w).

(** Dereferencing a pointer to a key: [k.ID] panics on nil. *)
Definition Key_ID (k : option Key) : M Z :=
  match k with
  | Some k => ret (ID k)
  | None => panic "invalid memory address or nil pointer dereference"
  end.

(** ** The datastore client *)

(** The numeric id that the datastore gives to an entity put under an
    incomplete key: positive, and not the id of a stored entity. *)
Definition allocateID (m : gmap (Z * string) PendingVoicemail) : Z :=
  Z.succ (foldr (fun kv acc => Z.max (fst (fst kv)) acc) 0 (map_to_list m)).

(** [store.Get(ctx, key, dst)] for an [Identity]: the loaded entity or the
    error.  An incomplete key is refused, a missing entity is the error
    [ErrNoSuchEntity]. *)
Definition store_Get (key : Key) : M (Identity + error) := fun w =>
  let w' := tick w in
  match storeFault w (storeOps w) with
  | Some e => Ok (inr (LibError e)) w'
  | None =>
      if Incomplete key then Ok (inr (LibError "datastore: invalid key")) w'
      else match identities w !! key_of key with
           | Some i => Ok (inl i) w'
           | None => Ok (inr (LibError "datastore: no such entity")) w'
           end
  end.

(** [store.Put(ctx, key, src)] for a [PendingVoicemail]: the key of the
    stored entity, completed with a new id when [key] is incomplete, or
    the error. *)
Definition store_Put (key : Key) (src : PendingVoicemail) : M (Key + error) := fun w =>
  let w' := tick w in
  match storeFault w (storeOps w) with
  | Some e => Ok (inr (LibError e)) w'
  | None =>
      let key' := if Incomplete key
                  then {| Kind := Kind key; ID := allocateID (pending w); Name := "" |}
                  else key in
      Ok (inl key') (set_pending (<[key_of key' := src]> (pending w)) w')
  end.

(** ** [getIdentityPair] (lines 213-225)

    The two [err] of the [if] statements shadow the result [err], which
    is never assigned: the third result is always nil. *)
Definition getIdentityPair (a b : string)
  : M (option Identity * option Identity * option error) :=
  let* ra := store_Get (NameKey "Identity" a) in
  let aa := match ra with inl i => Some i | inr _ => None end in
  let* rb := store_Get (NameKey "Identity" b) in
  let bb := match rb with inl i => Some i | inr _ => None end in
  ret (aa, bb, None).

(** ** [postStream] (lines 231-268)

    [url.Parse] and [http.NewRequest] do not fail on the paths and the
    method that the function gives them.  [apiURL] is
    [https://api.rogertalk.com/v17/], so the path of the request is the
    relative path under [/v17/]. *)
Definition streamsPath (streamId : Z) : string :=
  if 0 <? streamId then "streams/" +:+ Go.FormatInt streamId +:+ "/chunks" else "streams".

Definition request_of (c : PostCall) : HTTPPost :=
  {| URLPath := "/v17/" +:+ streamsPath (streamId c);
     on_behalf_of := Go.FormatInt (accountId c);
     Fields := fields c |}.

Definition postStream (accountId streamId : Z) (fields : Values)
  : M (option Stream.t * option error) := fun w =>
  let call := {| accountId := accountId; streamId := streamId; fields := fields |} in
  let req := request_of call in
  let w' := add_post call w in
  match platform w (length (posts w)) req with
  | NetError e => Ok (None, Some (LibError e)) w'
  | Reply StatusCode Status body =>
      if negb (StatusCode =? 200)
      then Ok (None, Some (ErrNot200 (URLPath req) accountId Status)) w'
      else match body with
           | Unreadable e => Ok (None, Some (LibError e)) w'
           | Malformed partial e => Ok (Some partial, Some (LibError e)) w'
           | Decoded stream => Ok (Some stream, None) w'
           end
  end.

(** ** [deliverVoicemail] (lines 136-191) *)

(** [i == nil || i.Available] *)
Definition nil_or_Available (i : option Identity) : bool :=
  match i with
  | None => true
  | Some i => Available i
  end.

(** [i != nil && !i.Available] *)
Definition not_nil_and_not_Available (i : option Identity) : bool :=
  match i with
  | None => false
  | Some i => negb (Available i)
  end.

(** [i.Account.ID]: panics when [i] or [i.Account] is nil. *)
Definition Account_ID (i : option Identity) : M Z :=
  match i with
  | Some i => Key_ID (Account i)
  | None => panic "invalid memory address or nil pointer dereference"
  end.

(** Lines 140-142: an empty sender becomes the placeholder. *)
Definition senderOf (from : string) : string :=
  if decide (from = "") then "unknownuser" else from.

Definition deliverVoicemail (from to audioURL : string) (retrying : bool)
  : M (option error) :=
  if decide (to = "") then ret (Some ErrEmptyRecipient)
  else
    let from := senderOf from in
    let* (fromIdentity, toIdentity, err) := getIdentityPair from to in
    if nil_or_Available toIdentity then
      if retrying then
        (* The voicemail is already in the queue, so don't add it. *)
        ret (Some (ErrStillNoAccount to))
      else
        let pending := {| From := from; To := to; AudioURL := audioURL;
                          Delivered := false |} in
        let* r := store_Put (IncompleteKey "PendingVoicemail") pending in
        match r with
        | inr storeErr => ret (Some (ErrStoreFailed to storeErr))
        | inl key => ret (Some (ErrStoredPending to (ID key)))
        end
    else
      let* toId := Account_ID toIdentity in
      if not_nil_and_not_Available fromIdentity then
        let* fromId := Account_ID fromIdentity in
        let* (_, err) := postStream fromId 0
             {[ "participant" := [Go.FormatInt toId]; "audio_url" := [audioURL] ]} in
        ret err
      else
        (* Sender has no account, so the stream is created in "reverse" first. *)
        let* (stream, err) := postStream toId 0
             {[ "participant" := [from]; "reason" := ["voicemail"] ]} in
        match err with
        | Some _ => ret err
        | None =>
            match stream with
            | None => panic "invalid memory address or nil pointer dereference"
            | Some stream =>
                let fromId := match Stream.Others stream with
                              | p :: _ => Participant.Id p
                              | [] =>
                                  (* A monologue stream: a voicemail to oneself. *)
                                  toId
                              end in
                let* (_, err) := postStream fromId (Stream.Id stream)
                     {[ "audio_url" := [audioURL] ]} in
                ret err
            end
        end.

(** ** [deliverPendingVoicemail] (lines 126-134) *)

(** [voicemail.Delivered = true] on the copy that the function was given. *)
Definition setDelivered (voicemail : PendingVoicemail) : PendingVoicemail :=
  {| From := From voicemail; To := To voicemail;
     AudioURL := AudioURL voicemail; Delivered := true |}.

Definition deliverPendingVoicemail (key : Key) (voicemail : PendingVoicemail)
  : M (option error) :=
  let* err := deliverVoicemail (From voicemail) (To voicemail) (AudioURL voicemail) true in
  match err with
  | Some _ => ret err
  | None =>
      let voicemail := setDelivered voicemail in
      let* r := store_Put key voicemail in
      ret (match r with inl _ => None | inr e => Some e end)
  end.

(** ** [flushPendingQueue] (lines 193-211)

    [store_Run] is [store.Run(ctx, q)] for the query [q] of the pending
    voicemails with [delivered = false]: an iterator, here the sequence of
    the results of its calls of [Next].  The loop is [for { ... }]: it
    ends only when [Next] returns [iterator.Done].  [i] counts the calls
    of [Next]; the loop is given fuel, and [None] is a loop that has not
    ended within it. *)
Definition Iterator : Type := nat -> NextResult.

Definition store_Run (w : World) : Iterator := queryResults w.

Fixpoint flushLoop (fuel : nat) (t : Iterator) (i : nat) (w : World) : option (Res unit) :=
  match fuel with
  | O => None
  | S fuel =>
      match t i with
      | Done => Some (Ok tt w)
      | NextError e => flushLoop fuel t (S i) (add_log (LogGetPendingFailed e) w)
      | Next key voicemail =>
          match deliverPendingVoicemail key voicemail w with
          | Ok (Some err) w' =>
              flushLoop fuel t (S i) (add_log (LogPendingFailed err) w')
          | Ok None w' =>
              flushLoop fuel t (S i) (add_log (LogPendingDelivered (To voicemail)) w')
          | Panic msg w' => Some (Panic msg w')
          end
      end
  end.

Definition flushPendingQueue (fuel : nat) (w : World) : option (Res unit) :=
  let t := store_Run w in
  flushLoop fuel t 0 w.

(** ** [callHandler] (lines 100-124) *)

(** The request as the handler reads it: [ParseForm] is what
    [r.ParseForm()] makes of the body, the form or the error. *)
Record Request := {
  Method : string;
  Path : string;
  Query : Values;
  ParseForm : Values + string
}.

Definition dq : string := String "034"%char "".

Definition Response : string :=
  "<?xml version=" +:+ dq +:+ "1.0" +:+ dq +:+ " encoding=" +:+ dq +:+ "UTF-8" +:+ dq +:+ "?>
<Response>
	<Say>Please leave a message after the tone.</Say>
	<Record maxLength=" +:+ dq +:+ "30" +:+ dq +:+ " />
	<Say>Sorry, no message could be recorded.</Say>
</Response>".

(** [logRequestTime] (lines 227-229); the duration it prints is not modelled. *)
Definition logRequestTime (method path : string) : M unit :=
  log_Printf (LogHandled method path).

(** [defer d] around the body [c]: [d] runs when [c] returns or panics. *)
Definition defer {A} (d : M unit) (c : M A) : M A := fun w =>
  match c w with
  | Ok a w' =>
      match d w' with
      | Ok _ w'' => Ok a w''
      | Panic msg w'' => Panic msg w''
      end
  | Panic msg w' =>
      match d w' with
      | Ok _ w'' => Panic msg w''
      | Panic msg' w'' => Panic msg' w''
      end
  end.

(** The result is what the handler writes to the response, if anything. *)
Definition callHandler (r : Request) : M (option string) :=
  defer (logRequestTime (Method r) (Path r))
    (* GET requests don't contain the recording. *)
    (if decide (Method r = "GET") then
       let* _ := log_Printf (LogIncomingCall (Query r)) in
       ret (Some Response)
     else
       match ParseForm r with
       | inr e =>
           let* _ := log_Printf (LogParseFailed e) in
           ret None
       | inl Form =>
           let from := Values_Get Form "From" in
           let to := Values_Get Form "ForwardedFrom" in
           let audioURL := Values_Get Form "RecordingUrl" in
           let audioURL := normalizeAudioURL audioURL in
           let* _ := log_Printf (LogVoicemail from to audioURL) in
           let* err := deliverVoicemail from to audioURL false in
           match err with
           | Some e =>
               let* _ := log_Printf (LogDeliverFailed e) in
               ret None
           | None => ret None
           end
       end).

(** ** Vocabulary of the statements *)

(** No character of [e] is a dot or a slash. *)
Definition plain (e : string) : Prop :=
  forall j c, String.get j e = Some c -> c <> "."%char /\ c <> "/"%char.

(** The world in which a computation has ended, and its result if it has
    not panicked. *)
Definition world_of {A} (r : Res A) : World :=
  match r with
  | Ok _ w => w
  | Panic _ w => w
  end.

Definition result_of {A} (r : Res A) : option A :=
  match r with
  | Ok a _ => Some a
  | Panic _ _ => None
  end.

(** ** Scenarios *)

(** A datastore without entities and without faults, and a platform that
    accepts every request and answers with the stream 31 without other
    participants. *)
Definition quiet : World :=
  {| identities := ∅; pending := ∅;
     storeFault := fun _ => None; storeOps := 0;
     platform := fun _ _ =>
       Reply 200 "200 OK" (Decoded {| Stream.Id := 31; Stream.Others := [] |});
     posts := []; queryResults := fun _ => Done; logs := [] |}.

(** The same world with other datastore faults. *)
Definition with_faults (f : nat -> option string) (w : World) : World :=
  {| identities := identities w; pending := pending w;
     storeFault := f; storeOps := storeOps w;
     platform := platform w; posts := posts w;
     queryResults := queryResults w; logs := logs w |}.

(** The third datastore call fails. *)
Definition third_fails (n : nat) : option string :=
  if (n =? 2)%nat then Some "datastore: unavailable" else None.

(** The same world with other identities, and with another platform. *)
Definition with_identities (ids : gmap (Z * string) Identity) (w : World) : World :=
  {| identities := ids; pending := pending w;
     storeFault := storeFault w; storeOps := storeOps w;
     platform := platform w; posts := posts w;
     queryResults := queryResults w; logs := logs w |}.

Definition with_platform (p : nat -> HTTPPost -> HTTPResult) (w : World) : World :=
  {| identities := identities w; pending := pending w;
     storeFault := storeFault w; storeOps := storeOps w;
     platform := p; posts := posts w;
     queryResults := queryResults w; logs := logs w |}.

(** The recipient has linked the account 42, the sender the account 17. *)
Definition linked (account : Z) : Identity :=
  {| Account := Some (IDKey "Account" account); Available := false; Status := "" |}.

Definition recipient_linked : gmap (Z * string) Identity :=
  {[ (0, "+15559998888") := linked 42 ]}.

Definition both_linked : gmap (Z * string) Identity :=
  <[ (0, "+15551230000") := linked 17 ]> recipient_linked.

(** A platform that refuses every request. *)
Definition refusing (n : nat) (r : HTTPPost) : HTTPResult :=
  Reply 500 "500 Internal Server Error" (Unreadable "").

(** The second datastore call fails. *)
Definition second_fails (n : nat) : option string :=
  if (n =? 1)%nat then Some "datastore: unavailable" else None.

(** The same world with other pending voicemails, and with other results
    of the query iterator. *)
Definition with_pending (p : gmap (Z * string) PendingVoicemail) (w : World) : World :=
  set_pending p w.

Definition with_queryResults (t : Iterator) (w : World) : World :=
  {| identities := identities w; pending := pending w;
     storeFault := storeFault w; storeOps := storeOps w;
     platform := platform w; posts := posts w;
     queryResults := t; logs := logs w |}.

(** A voicemail that waits under the id 5. *)
Definition waiting : PendingVoicemail :=
  {| From := "+15551230000"; To := "+15559998888";
     AudioURL := "https://h/rec123.mp3"; Delivered := false |}.

Definition queue : gmap (Z * string) PendingVoicemail := {[ (5, "") := waiting ]}.

(** An iterator that returns the waiting voicemail and is done, and one
    that returns an error first. *)
Definition one_record : Iterator := fun n =>
  match n with
  | O => Next (IDKey "PendingVoicemail" 5) waiting
  | _ => Done
  end.

Definition error_then_record : Iterator := fun n =>
  match n with
  | O => NextError "datastore: cannot load field"
  | 1%nat => Next (IDKey "PendingVoicemail" 5) waiting
  | _ => Done
  end.

(** Worlds of the scenarios: the recipient has linked an account; both
    have; the platform refuses; the voicemail waits and both have linked
    since. *)
Definition recipient_world : World := with_identities recipient_linked quiet.
Definition linked_world : World := with_identities both_linked quiet.
Definition refusing_world : World := with_platform refusing recipient_world.
Definition waiting_world (t : Iterator) : World :=
  with_queryResults t (with_pending queue linked_world).

(** ** The courses of a delivery

    The pending voicemail that a first delivery stores, the three calls of
    [postStream] that a delivery can make, and the eight ways in which
    [deliverVoicemail] ends, each with the world it ends in. *)
Definition newPending (from to audioURL : string) : PendingVoicemail :=
  {| From := senderOf from; To := to; AudioURL := audioURL; Delivered := false |}.

Definition directCall (fromId toId : Z) (audioURL : string) : PostCall :=
  {| accountId := fromId; streamId := 0;
     fields := {[ "participant" := [Go.FormatInt toId]; "audio_url" := [audioURL] ]} |}.

Definition createCall (toId : Z) (from : string) : PostCall :=
  {| accountId := toId; streamId := 0;
     fields := {[ "participant" := [senderOf from]; "reason" := ["voicemail"] ]} |}.

Definition appendCall (toId : Z) (stream : Stream.t) (audioURL : string) : PostCall :=
  {| accountId := match Stream.Others stream with
                  | p :: _ => Participant.Id p
                  | [] => toId
                  end;
     streamId := Stream.Id stream;
     fields := {[ "audio_url" := [audioURL] ]} |}.

Inductive Attempt (from to audioURL : string) (retrying : bool) (w : World)
  : Res (option error) -> Prop :=
| Rejected :
    to = "" ->
    Attempt from to audioURL retrying w (Ok (Some ErrEmptyRecipient) w)
| StillNoAccount fromIdentity toIdentity :
    to <> "" ->
    getIdentityPair (senderOf from) to w
    = Ok (fromIdentity, toIdentity, None) (tick (tick w)) ->
    nil_or_Available toIdentity = true ->
    retrying = true ->
    Attempt from to audioURL retrying w
      (Ok (Some (ErrStillNoAccount to)) (tick (tick w)))
| Queued fromIdentity toIdentity id :
    to <> "" ->
    getIdentityPair (senderOf from) to w
    = Ok (fromIdentity, toIdentity, None) (tick (tick w)) ->
    nil_or_Available toIdentity = true ->
    retrying = false ->
    0 < id ->
    pending w !! (id, "") = None ->
    Attempt from to audioURL retrying w
      (Ok (Some (ErrStoredPending to id))
          (set_pending (<[(id, "") := newPending from to audioURL]> (pending w))
             (tick (tick (tick w)))))
| NotStored fromIdentity toIdentity storeErr :
    to <> "" ->
    getIdentityPair (senderOf from) to w
    = Ok (fromIdentity, toIdentity, None) (tick (tick w)) ->
    nil_or_Available toIdentity = true ->
    retrying = false ->
    Attempt from to audioURL retrying w
      (Ok (Some (ErrStoreFailed to (LibError storeErr))) (tick (tick (tick w))))
| NilAccount fromIdentity toIdentity :
    to <> "" ->
    getIdentityPair (senderOf from) to w
    = Ok (fromIdentity, Some toIdentity, None) (tick (tick w)) ->
    Available toIdentity = false ->
    Account toIdentity = None
    \/ (exists fromId, fromIdentity = Some fromId
                       /\ Available fromId = false /\ Account fromId = None) ->
    Attempt from to audioURL retrying w
      (Panic "invalid memory address or nil pointer dereference" (tick (tick w)))
| Direct fromIdentity toIdentity fromKey toKey stream err :
    to <> "" ->
    getIdentityPair (senderOf from) to w
    = Ok (Some fromIdentity, Some toIdentity, None) (tick (tick w)) ->
    Available toIdentity = false -> Account toIdentity = Some toKey ->
    Available fromIdentity = false -> Account fromIdentity = Some fromKey ->
    postStream (ID fromKey) 0 (fields (directCall (ID fromKey) (ID toKey) audioURL))
      (tick (tick w))
    = Ok (stream, err) (add_post (directCall (ID fromKey) (ID toKey) audioURL)
                          (tick (tick w))) ->
    Attempt from to audioURL retrying w
      (Ok err (add_post (directCall (ID fromKey) (ID toKey) audioURL) (tick (tick w))))
| ReverseFailed fromIdentity toIdentity toKey stream e :
    to <> "" ->
    getIdentityPair (senderOf from) to w
    = Ok (fromIdentity, Some toIdentity, None) (tick (tick w)) ->
    Available toIdentity = false -> Account toIdentity = Some toKey ->
    not_nil_and_not_Available fromIdentity = false ->
    postStream (ID toKey) 0 (fields (createCall (ID toKey) from)) (tick (tick w))
    = Ok (stream, Some e) (add_post (createCall (ID toKey) from) (tick (tick w))) ->
    Attempt from to audioURL retrying w
      (Ok (Some e) (add_post (createCall (ID toKey) from) (tick (tick w))))
| Reversed fromIdentity toIdentity toKey stream stream' err :
    to <> "" ->
    getIdentityPair (senderOf from) to w
    = Ok (fromIdentity, Some toIdentity, None) (tick (tick w)) ->
    Available toIdentity = false -> Account toIdentity = Some toKey ->
    not_nil_and_not_Available fromIdentity = false ->
    postStream (ID toKey) 0 (fields (createCall (ID toKey) from)) (tick (tick w))
    = Ok (Some stream, None) (add_post (createCall (ID toKey) from) (tick (tick w))) ->
    postStream (accountId (appendCall (ID toKey) stream audioURL))
      (streamId (appendCall (ID toKey) stream audioURL))
      (fields (appendCall (ID toKey) stream audioURL))
      (add_post (createCall (ID toKey) from) (tick (tick w)))
    = Ok (stream', err)
         (add_post (appendCall (ID toKey) stream audioURL)
            (add_post (createCall (ID toKey) from) (tick (tick w)))) ->
    Attempt from to audioURL retrying w
      (Ok err (add_post (appendCall (ID toKey) stream audioURL)
                 (add_post (createCall (ID toKey) from) (tick (tick w))))).

(** A call of [postStream] whose fields have an [audio_url]. *)
Definition carries_audio (c : PostCall) : bool :=
  match fields c !! "audio_url" with
  | Some _ => true
  | None => false
  end.

(** How a flush may change the pending voicemails from [p] to [p']: every
    stored voicemail is still stored under its key, unchanged or as a
    delivered one, and every voicemail of [p'] that was not in [p] is a
    voicemail that the iterator [t] has returned, marked delivered. *)
Definition marks_only (t : Iterator) (p p' : gmap (Z * string) PendingVoicemail) : Prop :=
  (forall k v, p !! k = Some v ->
               exists v', p' !! k = Some v' /\ (v' = v \/ Delivered v' = true))
  /\ (forall k v', p' !! k = Some v' ->
                   p !! k = Some v'
                   \/ exists j key voicemail,
                       t j = Next key voicemail /\ v' = setDelivered voicemail).

(** An iterator that fails at every call. *)
Definition always_fails : Iterator := fun _ => NextError "datastore: unavailable".

(** The recipient has an identity that is still available. *)
Definition recipient_available : gmap (Z * string) Identity :=
  {[ (0, "+15559998888") :=
       {| Account := Some (IDKey "Account" 42); Available := true; Status := "" |} ]}.

(** * Properties *)

(** ** Strings: indexing and slicing *)

Section StringFacts.

Lemma get_app_r (b s : string) (k : nat) :
  String.get (String.length b + k) (b +:+ s) = String.get k s.
Proof. induction b as [|c b IH]; simpl; auto. Qed.

Lemma substring_app_r (b s : string) (n : nat) :
  substring (String.length b) n (b +:+ s) = substring 0 n s.
Proof. induction b as [|c b IH]; simpl; auto. Qed.

Lemma substring_all (s : string) : substring 0 (String.length s) s = s.
Proof. induction s as [|c s IH]; simpl; congruence. Qed.

Lemma substring_split (s : string) (i : nat) :
  (i <= String.length s)%nat ->
  substring 0 i s +:+ substring i (String.length s - i) s = s.
Proof.
  revert i. induction s as [|c s IH]; intros [|i] Hi; simpl in *; try lia; auto.
  - now rewrite substring_all.
  - change (String c (substring 0 i s +:+ substring i (String.length s - i) s)
            = String c s).
    f_equal. apply IH. lia.
Qed.

Lemma length_substring_suffix (s : string) (i : nat) :
  (i <= String.length s)%nat ->
  String.length (substring i (String.length s - i) s) = (String.length s - i)%nat.
Proof.
  revert i. induction s as [|c s IH]; intros [|i] Hi; simpl in *; try lia; auto.
  - now rewrite substring_all.
  - apply IH. lia.
Qed.

Lemma length_app (a b : string) :
  String.length (a +:+ b) = (String.length a + String.length b)%nat.
Proof. induction a as [|c a IH]; simpl; auto. Qed.

End StringFacts.

(** ** [path.Ext] *)

Section Ext.

Lemma substring_end (p : string) :
  substring (String.length p) (String.length p - String.length p) p = "".
Proof. rewrite Nat.sub_diag. induction p as [|c p IH]; simpl; auto. Qed.

(** The result of the loop is a suffix of the path. *)
Lemma ExtFrom_suffix (p : string) (n : nat) :
  (n <= String.length p)%nat ->
  exists i, (i <= String.length p)%nat /\
            Go.ExtFrom p n = substring i (String.length p - i) p.
Proof.
  induction n as [|n IH]; intros Hn; simpl.
  - exists (String.length p). split; [lia | now rewrite substring_end].
  - destruct (String.get n p) as [c|] eqn:Hget.
    + destruct (Ascii.eqb c "/").
      * exists (String.length p). split; [lia | now rewrite substring_end].
      * destruct (Ascii.eqb c ".").
        -- exists n. split; [lia | reflexivity].
        -- apply IH. lia.
    + exists (String.length p). split; [lia | now rewrite substring_end].
Qed.

(** The path is the sliced base followed by the extension. *)
Lemma Ext_split (p : string) :
  Go.slice_to p (String.length p - String.length (Go.Ext p)) +:+ Go.Ext p = p.
Proof.
  destruct (ExtFrom_suffix p (String.length p)) as (i & Hi & HE); [lia|].
  unfold Go.Ext, Go.slice_to. rewrite HE, length_substring_suffix by lia.
  replace (String.length p - (String.length p - i))%nat with i by lia.
  now apply substring_split.
Qed.

(** Characters that are neither a dot nor a slash are skipped. *)
Lemma ExtFrom_skip (p : string) (n k : nat) :
  (forall j, (n <= j < n + k)%nat ->
             exists c, String.get j p = Some c /\ c <> "."%char /\ c <> "/"%char) ->
  Go.ExtFrom p (n + k) = Go.ExtFrom p n.
Proof.
  induction k as [|k IH]; intros H.
  - now rewrite Nat.add_0_r.
  - rewrite Nat.add_succ_r. simpl.
    destruct (H (n + k)%nat) as (c & -> & Hdot & Hslash); [lia|].
    apply Ascii.eqb_neq in Hdot, Hslash. rewrite Hdot, Hslash.
    apply IH. intros j Hj. apply H. lia.
Qed.

Lemma get_lt_Some (s : string) (i : nat) :
  (i < String.length s)%nat -> exists c, String.get i s = Some c.
Proof.
  revert i. induction s as [|d s IH]; intros [|i] H; simpl in *; try lia; eauto.
  apply IH. lia.
Qed.

Lemma ExtFrom_plain_tail (b e : string) :
  plain e ->
  Go.ExtFrom (b +:+ e) (String.length b + String.length e)
  = Go.ExtFrom (b +:+ e) (String.length b).
Proof.
  intros He. apply ExtFrom_skip. intros j Hj.
  replace j with (String.length b + (j - String.length b))%nat by lia.
  rewrite get_app_r.
  destruct (get_lt_Some e (j - String.length b)) as [c Hc]; [lia|].
  exists c. split; [exact Hc | exact (He _ _ Hc)].
Qed.

(** A final element without a dot has no extension. *)
Lemma Ext_plain (e : string) : plain e -> Go.Ext e = "".
Proof.
  intros He. unfold Go.Ext.
  pose proof (ExtFrom_plain_tail "" e He) as H. simpl in H. exact H.
Qed.

Lemma Ext_slash_plain (d e : string) : plain e -> Go.Ext (d +:+ "/" +:+ e) = "".
Proof.
  intros He. unfold Go.Ext.
  change (d +:+ "/" +:+ e) with (d +:+ String "/" e).
  rewrite length_app. simpl String.length.
  replace (String.length d + S (String.length e))%nat
    with (String.length d + 1 + String.length e)%nat by lia.
  rewrite (ExtFrom_skip _ (String.length d + 1) (String.length e)).
  - replace (String.length d + 1)%nat with (S (String.length d)) by lia. simpl.
    rewrite <- (Nat.add_0_r (String.length d)) at 1. rewrite get_app_r. reflexivity.
  - intros j Hj.
    replace j with (String.length d + S (j - String.length d - 1))%nat by lia.
    rewrite get_app_r. simpl.
    destruct (get_lt_Some e (j - String.length d - 1)) as [c Hc]; [lia|].
    exists c. split; [exact Hc | exact (He _ _ Hc)].
Qed.

(** The extension is the suffix from the last dot of the final element. *)
Lemma Ext_dot_plain (b e : string) : plain e -> Go.Ext (b +:+ "." +:+ e) = "." +:+ e.
Proof.
  intros He. unfold Go.Ext.
  change (b +:+ "." +:+ e) with (b +:+ String "." e).
  rewrite length_app. simpl String.length.
  replace (String.length b + S (String.length e))%nat
    with (String.length b + 1 + String.length e)%nat by lia.
  rewrite (ExtFrom_skip _ (String.length b + 1) (String.length e)).
  - replace (String.length b + 1)%nat with (S (String.length b)) by lia. simpl.
    rewrite <- (Nat.add_0_r (String.length b)) at 1. rewrite get_app_r. simpl.
    rewrite length_app. simpl String.length.
    replace (String.length b + S (String.length e) - String.length b)%nat
      with (S (String.length e)) by lia.
    rewrite substring_app_r. simpl. now rewrite substring_all.
  - intros j Hj.
    replace j with (String.length b + S (j - String.length b - 1))%nat by lia.
    rewrite get_app_r. simpl.
    destruct (get_lt_Some e (j - String.length b - 1)) as [c Hc]; [lia|].
    exists c. split; [exact Hc | exact (He _ _ Hc)].
Qed.

Lemma plain_mp3 : plain "mp3".
Proof.
  intros [|[|[|j]]] c H; simpl in H; try discriminate;
    injection H as <-; split; discriminate.
Qed.

Lemma Ext_mp3 (b : string) : Go.Ext (b +:+ ".mp3") = ".mp3".
Proof. exact (Ext_dot_plain b "mp3" plain_mp3). Qed.

End Ext.

(** ** The audio URL rewrite *)

Section AudioURL.


(** A rewritten URL is the sliced base with [.mp3], and its extension
    is [.mp3]. *)
Lemma normalize_rewritten (u : string) :
  Go.Ext u = "" \/ Go.Ext u = ".wav" ->
  normalizeAudioURL u
  = Go.slice_to u (String.length u - String.length (Go.Ext u)) +:+ ".mp3"
  /\ Go.Ext (normalizeAudioURL u) = ".mp3".
Proof.
  intros H. unfold normalizeAudioURL. cbv zeta.
  destruct (decide _) as [_|n]; [|tauto].
  split; [reflexivity | apply Ext_mp3].
Qed.

Lemma normalize_kept (u : string) :
  Go.Ext u <> "" -> Go.Ext u <> ".wav" -> normalizeAudioURL u = u.
Proof.
  intros H1 H2. unfold normalizeAudioURL. cbv zeta.
  destruct (decide _) as [[?|?]|_]; [tauto | tauto | reflexivity].
Qed.


(** C10: the rewrite is idempotent, and the extension of its result is
    never absent and never [.wav]. *)
Theorem normalizeAudioURL_idempotent (u : string) :
  normalizeAudioURL (normalizeAudioURL u) = normalizeAudioURL u
  /\ Go.Ext (normalizeAudioURL u) <> ""
  /\ Go.Ext (normalizeAudioURL u) <> ".wav".
Proof.
  assert (Go.Ext (normalizeAudioURL u) <> ""
          /\ Go.Ext (normalizeAudioURL u) <> ".wav") as [H1 H2].
  { destruct (decide (Go.Ext u = "" \/ Go.Ext u = ".wav")) as [H|H].
    - destruct (normalize_rewritten u H) as [_ ->]. split; discriminate.
    - rewrite normalize_kept; tauto. }
  split; [now apply normalize_kept | split; assumption].
Qed.

End AudioURL.

(** ** The datastore client *)

Section Datastore.

Lemma foldr_max_ge (l : list (Z * string * PendingVoicemail)) kv :
  kv ∈ l -> fst (fst kv) <= foldr (fun kv acc => Z.max (fst (fst kv)) acc) 0 l.
Proof.
  induction l as [|x l IH]; intros Hin.
  - inversion Hin.
  - apply elem_of_cons in Hin as [->|Hin]; simpl; [lia|].
    specialize (IH Hin). lia.
Qed.

(** The allocated id is not the id of a stored entity. *)
Lemma allocateID_fresh (m : gmap (Z * string) PendingVoicemail) (name : string) :
  m !! (allocateID m, name) = None.
Proof.
  destruct (m !! (allocateID m, name)) as [v|] eqn:Hm; [|reflexivity].
  apply elem_of_map_to_list in Hm. apply foldr_max_ge in Hm.
  unfold allocateID in Hm. simpl in Hm. lia.
Qed.

Lemma allocateID_pos (m : gmap (Z * string) PendingVoicemail) : 0 < allocateID m.
Proof.
  unfold allocateID.
  assert (0 <= foldr (fun kv acc => Z.max (fst (fst kv)) acc) 0 (map_to_list m)); [|lia].
  induction (map_to_list m) as [|x l IH]; simpl; lia.
Qed.

(** A [Put] that succeeds writes the entity under the returned key and
    touches nothing else; under an incomplete key the entity is new. *)
Lemma store_Put_ok (key key' : Key) (src : PendingVoicemail) (w w' : World) :
  store_Put key src w = Ok (inl key') w' ->
  pending w' = <[key_of key' := src]> (pending w)
  /\ (Incomplete key = true -> pending w !! key_of key' = None)
  /\ (Incomplete key = false -> key' = key)
  /\ identities w' = identities w /\ posts w' = posts w /\ logs w' = logs w
  /\ platform w' = platform w /\ storeFault w' = storeFault w
  /\ queryResults w' = queryResults w /\ storeOps w' = S (storeOps w).
Proof.
  unfold store_Put. destruct (storeFault w (storeOps w)); [discriminate|].
  intros H. injection H as <- <-. simpl.
  repeat split; try reflexivity.
  - intros ->. apply allocateID_fresh.
  - now intros ->.
Qed.

(** A [Put] that fails writes nothing. *)
Lemma store_Put_failed (key : Key) (src : PendingVoicemail) (w w' : World) (e : error) :
  store_Put key src w = Ok (inr e) w' -> w' = tick w.
Proof.
  unfold store_Put. destruct (storeFault w (storeOps w)); intros H; now inversion H.
Qed.

Lemma store_Put_total (key : Key) (src : PendingVoicemail) (w : World) :
  exists r w', store_Put key src w = Ok r w'.
Proof. unfold store_Put. destruct (storeFault w (storeOps w)); eauto. Qed.

Lemma store_Get_world (key : Key) (w : World) :
  exists r, store_Get key w = Ok r (tick w).
Proof.
  unfold store_Get. destruct (storeFault w (storeOps w)); [eauto|].
  destruct (Incomplete key); [eauto|].
  destruct (identities w !! key_of key); eauto.
Qed.

(** An incomplete key loads nothing: there is no identity of the empty
    phone number. *)
Lemma store_Get_empty_name (w : World) (i : Identity) (w' : World) :
  store_Get (NameKey "Identity" "") w <> Ok (inl i) w'.
Proof.
  unfold store_Get. destruct (storeFault w (storeOps w)); simpl; discriminate.
Qed.

(** [getIdentityPair] makes two lookups, changes nothing else, and its
    error is always nil. *)
Lemma getIdentityPair_total (a b : string) (w : World) :
  exists aa bb, getIdentityPair a b w = Ok (aa, bb, None) (tick (tick w)).
Proof.
  unfold getIdentityPair, bind, ret.
  destruct (store_Get_world (NameKey "Identity" a) w) as [ra ->].
  destruct (store_Get_world (NameKey "Identity" b) (tick w)) as [rb ->].
  eauto.
Qed.

Lemma getIdentityPair_inv (a b : string) (w w1 : World) aa bb err :
  getIdentityPair a b w = Ok (aa, bb, err) w1 ->
  err = None /\ w1 = tick (tick w) /\ (b = "" -> bb = None).
Proof.
  intros H. destruct (getIdentityPair_total a b w) as (aa' & bb' & H').
  rewrite H' in H. injection H as -> -> <- <-.
  repeat split. intros ->.
  revert H'. unfold getIdentityPair, bind, ret.
  destruct (store_Get_world (NameKey "Identity" a) w) as [ra ->].
  destruct (store_Get (NameKey "Identity" "") (tick w)) as [[i|e] w2|m w2] eqn:Hget;
    intros H'; inversion H'; auto.
  exfalso. eapply store_Get_empty_name. exact Hget.
Qed.

End Datastore.

(** ** [postStream] *)

Section PostStream.

(** One call is recorded; the call never panics, and a nil error comes
    with a stream. *)
Lemma postStream_total (accountId streamId : Z) (fields : Values) (w : World) :
  exists stream err,
    postStream accountId streamId fields w
    = Ok (stream, err)
         (add_post {| accountId := accountId; streamId := streamId; fields := fields |} w)
    /\ (err = None -> stream <> None).
Proof.
  unfold postStream.
  destruct (platform w _ _) as [e|code status body]; [eexists _, _; split; [reflexivity|discriminate]|].
  destruct (negb (code =? 200)); [eexists _, _; split; [reflexivity|discriminate]|].
  destruct body; eexists _, _; (split; [reflexivity|]); intros; discriminate.
Qed.

End PostStream.

(** ** [deliverVoicemail]: the recipient cannot be reached *)

Section Undeliverable.

(** C7: with an empty recipient the function returns the empty-recipient
    error at once, whatever the sender, the audio URL and the retry flag
    are.  The world is the same: no datastore call was counted, no request
    to the platform was recorded, and no pending voicemail was written. *)
Theorem deliver_empty_recipient (from audioURL : string) (retrying : bool) (w : World) :
  deliverVoicemail from "" audioURL retrying w = Ok (Some ErrEmptyRecipient) w
  /\ storeOps (world_of (deliverVoicemail from "" audioURL retrying w)) = storeOps w
  /\ posts (world_of (deliverVoicemail from "" audioURL retrying w)) = posts w
  /\ pending (world_of (deliverVoicemail from "" audioURL retrying w)) = pending w.
Proof.
  assert (deliverVoicemail from "" audioURL retrying w = Ok (Some ErrEmptyRecipient) w)
    as Hrun.
  { unfold deliverVoicemail. destruct (decide ("" = "")) as [_|Hne]; [reflexivity|].
    now destruct Hne. }
  rewrite Hrun. repeat split.
Qed.

(** What the function does after the lookups when the recipient has no
    identity or an available one. *)
Lemma deliver_no_account (from to audioURL : string) (retrying : bool) (w w1 : World)
      fromIdentity toIdentity err :
  to <> "" ->
  getIdentityPair (senderOf from) to w = Ok (fromIdentity, toIdentity, err) w1 ->
  nil_or_Available toIdentity = true ->
  deliverVoicemail from to audioURL retrying w
  = if retrying then Ok (Some (ErrStillNoAccount to)) w1
    else match store_Put (IncompleteKey "PendingVoicemail")
                 {| From := senderOf from; To := to; AudioURL := audioURL;
                    Delivered := false |} w1 with
         | Ok (inl key) w2 => Ok (Some (ErrStoredPending to (ID key))) w2
         | Ok (inr storeErr) w2 => Ok (Some (ErrStoreFailed to storeErr)) w2
         | Panic msg w2 => Panic msg w2
         end.
Proof.
  intros Hto Hpair Hti. unfold deliverVoicemail.
  destruct (decide (to = "")) as [?|_]; [contradiction|].
  unfold bind at 1. rewrite Hpair, Hti.
  destruct retrying; [reflexivity|].
  unfold bind, ret.
  destruct (store_Put _ _ w1) as [[key|e] w2|msg w2]; reflexivity.
Qed.

(** C1, as the code has it: for a recipient that is not empty, when the
    lookup finds no identity of the recipient or an available one and the
    datastore accepts the insert, a first delivery stores exactly one new
    pending voicemail, with the sender (the placeholder for an empty one),
    the recipient, the audio URL and [Delivered = false], returns the
    stored-pending error with the id of the new entity, and posts nothing
    to the platform. *)
Theorem deliver_enqueues (from to audioURL : string) (w w1 w2 : World)
        fromIdentity toIdentity err (key : Key) :
  to <> "" ->
  getIdentityPair (senderOf from) to w = Ok (fromIdentity, toIdentity, err) w1 ->
  nil_or_Available toIdentity = true ->
  store_Put (IncompleteKey "PendingVoicemail")
    {| From := senderOf from; To := to; AudioURL := audioURL; Delivered := false |} w1
  = Ok (inl key) w2 ->
  deliverVoicemail from to audioURL false w = Ok (Some (ErrStoredPending to (ID key))) w2
  /\ pending w !! key_of key = None
  /\ pending w2
     = <[key_of key := {| From := senderOf from; To := to; AudioURL := audioURL;
                          Delivered := false |}]> (pending w)
  /\ posts w2 = posts w.
Proof.
  intros Hto Hpair Hti Hput.
  rewrite (deliver_no_account _ _ _ _ _ _ _ _ _ Hto Hpair Hti), Hput.
  apply getIdentityPair_inv in Hpair as (_ & -> & _).
  apply store_Put_ok in Hput as (Hp & Hfresh & _ & _ & Hposts & _).
  repeat split; auto.
Qed.

Lemma deliver_enqueues_witness :
  deliverVoicemail "+15551230000" "+15559998888" "https://h/rec123.mp3" false quiet
  = Ok (Some (ErrStoredPending "+15559998888" 1))
       (set_pending
          {[ (1, "") := {| From := "+15551230000"; To := "+15559998888";
                           AudioURL := "https://h/rec123.mp3"; Delivered := false |} ]}
          (tick (tick (tick quiet)))).
Proof.
  refine (proj1 (deliver_enqueues "+15551230000" "+15559998888" "https://h/rec123.mp3"
                   quiet (tick (tick quiet)) _ None None None
                   (IDKey "PendingVoicemail" 1) _ _ _ _)).
  - discriminate.
  - reflexivity.
  - reflexivity.
  - reflexivity.
Defined.

(** C1 as stated fails on three inputs whose recipient has no identity:
    with an empty sender the stored voicemail has the placeholder as its
    sender, not the sender of the call; with an empty recipient nothing
    is stored; and when the datastore refuses the insert nothing is
    stored either. *)
Lemma deliver_enqueues_as_stated_fails :
  (getIdentityPair (senderOf "") "+15559998888" quiet
   = Ok (None, None, None) (tick (tick quiet))
   /\ ~ exists id w',
         deliverVoicemail "" "+15559998888" "https://h/rec123.mp3" false quiet
         = Ok (Some (ErrStoredPending "+15559998888" id)) w'
         /\ pending w'
            = <[(id, "") := {| From := ""; To := "+15559998888";
                               AudioURL := "https://h/rec123.mp3";
                               Delivered := false |}]> (pending quiet))
  /\ (getIdentityPair (senderOf "+15551230000") "" quiet
      = Ok (None, None, None) (tick (tick quiet))
      /\ deliverVoicemail "+15551230000" "" "https://h/rec123.mp3" false quiet
         = Ok (Some ErrEmptyRecipient) quiet)
  /\ (getIdentityPair (senderOf "+15551230000") "+15559998888"
        (with_faults third_fails quiet)
      = Ok (None, None, None) (tick (tick (with_faults third_fails quiet)))
      /\ deliverVoicemail "+15551230000" "+15559998888" "https://h/rec123.mp3" false
           (with_faults third_fails quiet)
         = Ok (Some (ErrStoreFailed "+15559998888" (LibError "datastore: unavailable")))
              (tick (tick (tick (with_faults third_fails quiet))))
      /\ pending (tick (tick (tick (with_faults third_fails quiet)))) = ∅).
Proof.
  split; [split; [reflexivity|] | split; [split; reflexivity | repeat split]].
  intros (id & w' & Hres & Hpend).
  assert (deliverVoicemail "" "+15559998888" "https://h/rec123.mp3" false quiet
          = Ok (Some (ErrStoredPending "+15559998888" 1))
               (set_pending
                  {[ (1, "") := {| From := "unknownuser"; To := "+15559998888";
                                   AudioURL := "https://h/rec123.mp3";
                                   Delivered := false |} ]}
                  (tick (tick (tick quiet))))) as Hrun by reflexivity.
  rewrite Hrun in Hres. injection Hres as <- <-.
  apply (f_equal (fun m => m !! (1, ""))) in Hpend.
  simpl in Hpend. rewrite lookup_singleton_eq, lookup_insert_eq in Hpend.
  discriminate.
Qed.

(** The errors of [postStream] are those of the libraries and the
    status error. *)
Lemma postStream_error (accountId streamId : Z) (fields : Values) (w w' : World)
      stream (e : error) :
  postStream accountId streamId fields w = Ok (stream, Some e) w' ->
  forall to id, e <> ErrStoredPending to id.
Proof.
  unfold postStream.
  destruct (platform w _ _) as [m|code status body].
  - intros H; inversion H; discriminate.
  - destruct (negb (code =? 200)); [intros H; inversion H; discriminate|].
    destruct body; intros H; inversion H; discriminate.
Qed.

End Undeliverable.

(** ** [deliverVoicemail]: a retry *)

Section Retry.

Ltac run_post Hr H :=
  match type of Hr with
  | context [postStream ?a ?s ?f ?w] =>
      let st := fresh "stream" in
      let err := fresh "err" in
      let Hnn := fresh "Hstream" in
      destruct (postStream_total a s f w) as (st & err & H & Hnn);
      rewrite H in Hr
  end.

(** A retry writes no pending voicemail and never returns the
    stored-pending error, whatever it is given. *)
Lemma deliver_retry_effects (from to audioURL : string) (w : World) :
  pending (world_of (deliverVoicemail from to audioURL true w)) = pending w
  /\ forall to' id,
      result_of (deliverVoicemail from to audioURL true w)
      <> Some (Some (ErrStoredPending to' id)).
Proof.
  remember (deliverVoicemail from to audioURL true w) as r eqn:Hr.
  unfold deliverVoicemail in Hr.
  destruct (decide (to = ""));
    [subst r; split; [reflexivity | intros; discriminate]|].
  destruct (getIdentityPair_total (senderOf from) to w) as (fi & ti & Hp).
  unfold bind at 1 in Hr. rewrite Hp in Hr.
  destruct (nil_or_Available ti) eqn:Hti;
    [subst r; split; [reflexivity | intros; discriminate]|].
  destruct ti as [[[tk|] tav tst]|]; simpl in Hti; try discriminate;
    [|subst r; split; [reflexivity | intros; discriminate]].
  unfold bind at 1 in Hr. cbn [Account_ID Account Key_ID ret] in Hr.
  destruct (not_nil_and_not_Available fi) eqn:Hfi.
  - destruct fi as [[[fk|] fav fst]|]; simpl in Hfi; try discriminate;
      [|subst r; split; [reflexivity | intros; discriminate]].
    unfold bind, ret in Hr. cbn [Account_ID Account Key_ID ret] in Hr.
    run_post Hr Hps. subst r. split; [reflexivity|].
    intros to' id H. injection H as ->.
    eapply postStream_error; [exact Hps | reflexivity].
  - unfold bind at 1 in Hr. run_post Hr Hps.
    destruct err as [e|].
    + subst r. split; [reflexivity|]. intros to' id H. injection H as ->.
      eapply postStream_error; [exact Hps | reflexivity].
    + destruct stream as [stream|]; [|now destruct Hstream].
      unfold bind, ret in Hr. run_post Hr Hps2. subst r. split; [reflexivity|].
      intros to' id H. injection H as ->.
      eapply postStream_error; [exact Hps2 | reflexivity].
Qed.




End Retry.

(** ** [deliverVoicemail]: the recipient has linked an account *)

Section Linked.

Variables (from to audioURL : string) (retrying : bool).
Variables (w w1 : World) (fromIdentity : option Identity) (toIdentity : Identity).
Variables (err : option error) (toAccount : Key).

Hypothesis Hpair :
  getIdentityPair (senderOf from) to w = Ok (fromIdentity, Some toIdentity, err) w1.
Hypothesis Hto : Available toIdentity = false.
Hypothesis HtoAccount : Account toIdentity = Some toAccount.

Lemma linked_recipient_not_empty : to <> "".
Proof.
  intros ->. apply getIdentityPair_inv in Hpair as (_ & _ & H).
  specialize (H eq_refl). discriminate.
Qed.

Lemma lookups_only : posts w1 = posts w /\ pending w1 = pending w.
Proof. apply getIdentityPair_inv in Hpair as (_ & -> & _). split; reflexivity. Qed.

(** The sender has linked an account too: one post, on behalf of the
    sender. *)
Lemma deliver_linked_sender (fromId : Identity) (fromAccount : Key) :
  fromIdentity = Some fromId ->
  Available fromId = false ->
  Account fromId = Some fromAccount ->
  deliverVoicemail from to audioURL retrying w
  = match postStream (ID fromAccount) 0
            {[ "participant" := [Go.FormatInt (ID toAccount)];
               "audio_url" := [audioURL] ]} w1 with
    | Ok (_, err) w2 => Ok err w2
    | Panic msg w2 => Panic msg w2
    end.
Proof.
  intros Hfi Hfrom HfromAccount. unfold deliverVoicemail.
  destruct (decide (to = "")) as [e|_]; [now apply linked_recipient_not_empty in e|].
  unfold bind at 1. rewrite Hpair. cbn [nil_or_Available]. rewrite Hto.
  unfold bind at 1. cbn [Account_ID]. rewrite HtoAccount. cbn [Key_ID ret].
  subst fromIdentity. cbn [not_nil_and_not_Available]. rewrite Hfrom. cbn [negb].
  unfold bind at 1. cbn [Account_ID]. rewrite HfromAccount. cbn [Key_ID ret].
  unfold bind, ret. destruct (postStream _ _ _ w1) as [[st e] w2|msg w2]; reflexivity.
Qed.

(** The sender has no linked account: the stream is created on behalf
    of the recipient, and the audio is posted to it if that succeeds. *)
Lemma deliver_unlinked_sender :
  not_nil_and_not_Available fromIdentity = false ->
  deliverVoicemail from to audioURL retrying w
  = match postStream (ID toAccount) 0
            {[ "participant" := [senderOf from]; "reason" := ["voicemail"] ]} w1 with
    | Ok (_, Some e) w2 => Ok (Some e) w2
    | Ok (Some stream, None) w2 =>
        match postStream
                match Stream.Others stream with
                | p :: _ => Participant.Id p
                | [] => ID toAccount
                end (Stream.Id stream) {[ "audio_url" := [audioURL] ]} w2 with
        | Ok (_, err) w3 => Ok err w3
        | Panic msg w3 => Panic msg w3
        end
    | Ok (None, None) w2 => Panic "invalid memory address or nil pointer dereference" w2
    | Panic msg w2 => Panic msg w2
    end.
Proof.
  intros Hfrom. unfold deliverVoicemail.
  destruct (decide (to = "")) as [e|_]; [now apply linked_recipient_not_empty in e|].
  unfold bind at 1. rewrite Hpair. cbn [nil_or_Available]. rewrite Hto.
  unfold bind at 1. cbn [Account_ID]. rewrite HtoAccount. cbn [Key_ID ret].
  rewrite Hfrom. unfold bind at 1.
  destruct (postStream _ _ _ w1) as [[[st|] [e|]] w2|msg w2]; try reflexivity.
  unfold bind, ret.
  destruct (postStream _ _ _ w2) as [[st' e'] w3|msg w3]; reflexivity.
Qed.

End Linked.

Section NilAccount.

(** An identity of the recipient with [Available = false] and without
    account key makes the function panic after the lookups, at the
    dereference of line 162. *)
Lemma deliver_nil_account_panics (from to audioURL : string) (retrying : bool)
      (w w1 : World) (fromIdentity : option Identity) (toIdentity : Identity)
      (err : option error) :
  getIdentityPair (senderOf from) to w = Ok (fromIdentity, Some toIdentity, err) w1 ->
  Available toIdentity = false ->
  Account toIdentity = None ->
  deliverVoicemail from to audioURL retrying w
  = Panic "invalid memory address or nil pointer dereference" w1.
Proof.
  intros Hpair Hto Hnil. unfold deliverVoicemail.
  destruct (decide (to = "")) as [->|_].
  - apply getIdentityPair_inv in Hpair as (_ & _ & H). now specialize (H eq_refl).
  - unfold bind at 1. rewrite Hpair. cbn [nil_or_Available]. rewrite Hto.
    unfold bind at 1. cbn [Account_ID]. now rewrite Hnil.
Qed.

End NilAccount.

Section Posts.

(** [postStream] has no error exactly when the platform answers 200
    with a body that decodes. *)
Lemma postStream_nil_error_iff (accountId streamId : Z) (fields : Values) (w : World) :
  (exists stream w', postStream accountId streamId fields w = Ok (stream, None) w')
  <-> exists status stream,
      platform w (length (posts w))
        (request_of {| accountId := accountId; streamId := streamId; fields := fields |})
      = Reply 200 status (Decoded stream).
Proof.
  unfold postStream. split.
  - intros (st & w' & H).
    destruct (platform w _ _) as [m|code status body]; [discriminate|].
    destruct (Z.eqb_spec code 200) as [->|]; simpl in H; [|discriminate].
    destruct body; try discriminate. eauto.
  - intros (status & st & ->). simpl. eauto.
Qed.



End Posts.

Section Reverse.

(** C3, as the code has it: when the lookups find an identity of the
    recipient with [Available = false] (and an account key) and no
    identity of the sender, or an available one, the first call of
    [postStream] is on behalf of the account of the recipient, with stream
    id 0 and with the fields [participant], the sender (the placeholder
    for an empty one), and [reason], [voicemail].  If that call has an
    error, the error is returned and there is no other call.  Otherwise
    there is exactly one more call, with the id of the returned stream
    and the field [audio_url], on behalf of the first of the other
    participants of the stream, or of the account of the recipient when
    there are none; its error is the result. *)
Theorem deliver_reverse_creation
        (from to audioURL : string) (retrying : bool) (w w1 : World)
        (fromIdentity : option Identity) (toIdentity : Identity)
        (err : option error) (toAccount : Key) :
  getIdentityPair (senderOf from) to w = Ok (fromIdentity, Some toIdentity, err) w1 ->
  Available toIdentity = false -> Account toIdentity = Some toAccount ->
  not_nil_and_not_Available fromIdentity = false ->
  let create := {| accountId := ID toAccount; streamId := 0;
                   fields := {[ "participant" := [senderOf from];
                                "reason" := ["voicemail"] ]} |} in
  exists stream err1,
    postStream (ID toAccount) 0 (fields create) w1
    = Ok (stream, err1) (add_post create w1)
    /\ match err1, stream with
       | Some e, _ =>
           deliverVoicemail from to audioURL retrying w
           = Ok (Some e) (add_post create w1)
           /\ posts (add_post create w1) = (posts w ++ [create])%list
       | None, Some stream =>
           let append := {| accountId := match Stream.Others stream with
                                         | p :: _ => Participant.Id p
                                         | [] => ID toAccount
                                         end;
                            streamId := Stream.Id stream;
                            fields := {[ "audio_url" := [audioURL] ]} |} in
           exists stream2 err2,
             postStream (accountId append) (streamId append) (fields append)
               (add_post create w1)
             = Ok (stream2, err2) (add_post append (add_post create w1))
             /\ deliverVoicemail from to audioURL retrying w
                = Ok err2 (add_post append (add_post create w1))
             /\ posts (add_post append (add_post create w1))
                = (posts w ++ [create; append])%list
       | None, None => False
       end.
Proof.
  intros Hpair Hto HtoAccount Hfrom create. subst create.
  rewrite (deliver_unlinked_sender _ _ _ _ _ _ _ _ _ _ Hpair Hto HtoAccount Hfrom).
  destruct (lookups_only _ _ _ _ _ _ _ Hpair) as [Hposts _].
  cbn [fields accountId streamId].
  destruct (postStream_total (ID toAccount) 0
              {[ "participant" := [senderOf from]; "reason" := ["voicemail"] ]} w1)
    as (stream & err1 & Hps & Hstream).
  exists stream, err1. split; [exact Hps|].
  rewrite Hps.
  destruct err1 as [e|].
  - split; [now destruct stream | simpl; congruence].
  - destruct stream as [stream|]; [|now apply Hstream].
    cbv zeta. cbn [fields accountId streamId].
    match goal with
    | |- context [postStream ?a ?s ?f ?w] =>
        destruct (postStream_total a s f w) as (stream2 & err2 & Hps2 & _)
    end.
    exists stream2, err2. split; [exact Hps2|].
    rewrite Hps2. split; [reflexivity|].
    simpl. rewrite Hposts, <- app_assoc. reflexivity.
Qed.

Lemma deliver_reverse_creation_witness :
  exists w',
    deliverVoicemail "+15551230000" "+15559998888" "https://h/rec123.mp3" false
      recipient_world = Ok None w'
    /\ posts w'
       = [ {| accountId := 42; streamId := 0;
              fields := {[ "participant" := ["+15551230000"];
                           "reason" := ["voicemail"] ]} |};
           {| accountId := 42; streamId := 31;
              fields := {[ "audio_url" := ["https://h/rec123.mp3"] ]} |} ].
Proof.
  destruct (deliver_reverse_creation
              "+15551230000" "+15559998888" "https://h/rec123.mp3" false
              recipient_world
              (tick (tick recipient_world))
              None (linked 42) None (IDKey "Account" 42)
              eq_refl eq_refl eq_refl eq_refl)
    as (stream & err1 & Hpost & H).
  injection Hpost as <- <-.
  destruct H as (stream2 & err2 & Hpost2 & Hrun & Hposts).
  injection Hpost2 as _ <-.
  eexists. split; [exact Hrun | exact Hposts].
Defined.

(** C3 as stated fails on two inputs.  With an empty sender the
    [participant] of the first call is the placeholder, not the sender of
    the call.  When the platform refuses the first call there is no
    second call. *)
Lemma deliver_reverse_creation_as_stated_fails :
  (getIdentityPair (senderOf "") "+15559998888" recipient_world
   = Ok (None, Some (linked 42), None) (tick (tick recipient_world))
   /\ result_of (deliverVoicemail "" "+15559998888" "https://h/rec123.mp3" false
                   recipient_world) = Some None
   /\ posts (world_of (deliverVoicemail "" "+15559998888" "https://h/rec123.mp3" false
                         recipient_world))
      = [ {| accountId := 42; streamId := 0;
             fields := {[ "participant" := ["unknownuser"];
                          "reason" := ["voicemail"] ]} |};
          {| accountId := 42; streamId := 31;
             fields := {[ "audio_url" := ["https://h/rec123.mp3"] ]} |} ]
   /\ "unknownuser" <> "")
  /\ (getIdentityPair (senderOf "+15551230000") "+15559998888" refusing_world
      = Ok (None, Some (linked 42), None) (tick (tick refusing_world))
      /\ result_of (deliverVoicemail "+15551230000" "+15559998888"
                      "https://h/rec123.mp3" false refusing_world)
         = Some (Some (ErrNot200 "/v17/streams" 42 "500 Internal Server Error"))
      /\ posts (world_of (deliverVoicemail "+15551230000" "+15559998888"
                            "https://h/rec123.mp3" false refusing_world))
         = [ {| accountId := 42; streamId := 0;
                fields := {[ "participant" := ["+15551230000"];
                             "reason" := ["voicemail"] ]} |} ]).
Proof.
  split.
  - split; [reflexivity|]. split; [reflexivity|]. split; [reflexivity | discriminate].
  - split; [reflexivity|]. split; reflexivity.
Qed.

End Reverse.

(** ** Datastore errors in a delivery *)

Section StorageErrors.

(** A lookup that fails gives no identity. *)
Lemma getIdentityPair_errors (a b : string) (w : World) :
  exists aa bb,
    getIdentityPair a b w = Ok (aa, bb, None) (tick (tick w))
    /\ (forall e w', store_Get (NameKey "Identity" a) w = Ok (inr e) w' -> aa = None)
    /\ (forall e w', store_Get (NameKey "Identity" b) (tick w) = Ok (inr e) w' ->
                     bb = None).
Proof.
  unfold getIdentityPair, bind, ret.
  destruct (store_Get_world (NameKey "Identity" a) w) as [ra ->].
  destruct (store_Get_world (NameKey "Identity" b) (tick w)) as [rb ->].
  eexists _, _. split; [reflexivity|].
  split; intros e w' H; now inversion H.
Qed.

(** C6, as the code has it: the error of the insert of the pending
    voicemail is returned to the caller, wrapped in the error of the
    delivery, and nothing is stored; an error of either lookup is not
    returned: the identity counts as not found, and the error result of
    [getIdentityPair] is always nil. *)
Theorem deliver_storage_errors (from to audioURL : string) (w : World) :
  (exists fromIdentity toIdentity,
     getIdentityPair (senderOf from) to w
     = Ok (fromIdentity, toIdentity, None) (tick (tick w))
     /\ (forall e w', store_Get (NameKey "Identity" (senderOf from)) w = Ok (inr e) w' ->
                      fromIdentity = None)
     /\ (forall e w', store_Get (NameKey "Identity" to) (tick w) = Ok (inr e) w' ->
                      toIdentity = None))
  /\ (to <> "" ->
      forall fromIdentity toIdentity err w1 storeErr w2,
        getIdentityPair (senderOf from) to w = Ok (fromIdentity, toIdentity, err) w1 ->
        nil_or_Available toIdentity = true ->
        store_Put (IncompleteKey "PendingVoicemail")
          {| From := senderOf from; To := to; AudioURL := audioURL;
             Delivered := false |} w1
        = Ok (inr storeErr) w2 ->
        deliverVoicemail from to audioURL false w
        = Ok (Some (ErrStoreFailed to storeErr)) w2
        /\ pending w2 = pending w).
Proof.
  split; [apply getIdentityPair_errors|].
  intros Hto fromIdentity toIdentity err w1 storeErr w2 Hpair Hti Hput.
  rewrite (deliver_no_account _ _ _ _ _ _ _ _ _ Hto Hpair Hti), Hput.
  split; [reflexivity|].
  apply store_Put_failed in Hput as ->.
  now apply getIdentityPair_inv in Hpair as (_ & -> & _).
Qed.

Lemma deliver_storage_errors_witness :
  deliverVoicemail "+15551230000" "+15559998888" "https://h/rec123.mp3" false
    (with_faults third_fails quiet)
  = Ok (Some (ErrStoreFailed "+15559998888" (LibError "datastore: unavailable")))
       (tick (tick (tick (with_faults third_fails quiet)))).
Proof.
  refine (proj1 (proj2 (deliver_storage_errors
                   "+15551230000" "+15559998888" "https://h/rec123.mp3"
                   (with_faults third_fails quiet))
                   _ None None None (tick (tick (with_faults third_fails quiet)))
                   (LibError "datastore: unavailable") _ _ _ _)).
  - discriminate.
  - reflexivity.
  - reflexivity.
  - reflexivity.
Defined.

(** C6 as stated fails when the lookup of the recipient fails: both have
    linked an account, the second datastore call fails, and the delivery
    stores a pending voicemail and returns the stored-pending error; on a
    retry it returns the error of a recipient without account.  The
    datastore error is in neither. *)
Lemma deliver_storage_errors_as_stated_fails :
  store_Get (NameKey "Identity" "+15559998888") (tick (with_faults second_fails linked_world))
  = Ok (inr (LibError "datastore: unavailable"))
       (tick (tick (with_faults second_fails linked_world)))
  /\ result_of (deliverVoicemail "+15551230000" "+15559998888" "https://h/rec123.mp3"
                  false (with_faults second_fails linked_world))
     = Some (Some (ErrStoredPending "+15559998888" 1))
  /\ pending (world_of (deliverVoicemail "+15551230000" "+15559998888"
                          "https://h/rec123.mp3" false
                          (with_faults second_fails linked_world)))
     = {[ (1, "") := waiting ]}
  /\ result_of (deliverVoicemail "+15551230000" "+15559998888" "https://h/rec123.mp3"
                  true (with_faults second_fails linked_world))
     = Some (Some (ErrStillNoAccount "+15559998888")).
Proof. repeat split. Qed.

End StorageErrors.

(** ** [deliverPendingVoicemail] and [flushPendingQueue] *)

Section Flush.

Lemma deliverPendingVoicemail_cases (key : Key) (voicemail : PendingVoicemail) (w : World) :
  deliverPendingVoicemail key voicemail w
  = match deliverVoicemail (From voicemail) (To voicemail) (AudioURL voicemail) true w with
    | Ok (Some e) w1 => Ok (Some e) w1
    | Ok None w1 =>
        match store_Put key (setDelivered voicemail) w1 with
        | Ok (inl _) w2 => Ok None w2
        | Ok (inr e) w2 => Ok (Some e) w2
        | Panic msg w2 => Panic msg w2
        end
    | Panic msg w1 => Panic msg w1
    end.
Proof.
  unfold deliverPendingVoicemail, bind, ret.
  destruct (deliverVoicemail _ _ _ true w) as [[e|] w1|msg w1]; try reflexivity.
  destruct (store_Put _ _ w1) as [[k|e] w2|msg w2]; reflexivity.
Qed.

(** C9, as the code has it: a pending voicemail that the flusher
    processes is marked delivered exactly when the retry has no error and
    the datastore accepts the update; the update changes nothing but the
    [Delivered] of that entity.  When the retry has an error or panics,
    its result is the result and no pending voicemail is touched; when
    the update is refused, its error is the result and no pending
    voicemail is touched either. *)
Theorem pending_marked_delivered (key : Key) (voicemail : PendingVoicemail) (w : World) :
  pending w !! key_of key = Some voicemail ->
  Delivered voicemail = false ->
  Incomplete key = false ->
  let attempt :=
    deliverVoicemail (From voicemail) (To voicemail) (AudioURL voicemail) true w in
  let run := deliverPendingVoicemail key voicemail w in
  (pending (world_of run) !! key_of key = Some (setDelivered voicemail)
   <-> result_of attempt = Some None
       /\ exists key' w2,
           store_Put key (setDelivered voicemail) (world_of attempt) = Ok (inl key') w2)
  /\ (result_of attempt <> Some None ->
      run = attempt /\ pending (world_of run) = pending w)
  /\ (result_of attempt = Some None ->
      forall r w2,
        store_Put key (setDelivered voicemail) (world_of attempt) = Ok r w2 ->
        match r with
        | inl _ =>
            run = Ok None w2
            /\ pending w2 = <[key_of key := setDelivered voicemail]> (pending w)
        | inr e => run = Ok (Some e) w2 /\ pending w2 = pending w
        end).
Proof.
  intros Hrec Hund Hkey attempt run.
  destruct (deliver_retry_effects (From voicemail) (To voicemail) (AudioURL voicemail) w)
    as [Hpending _].
  fold attempt in Hpending.
  assert (Hrun := deliverPendingVoicemail_cases key voicemail w).
  fold attempt run in Hrun.
  assert (Hnot : pending w !! key_of key <> Some (setDelivered voicemail)).
  { rewrite Hrec. intros H. injection H as H. rewrite H in Hund. discriminate. }
  assert (Hfail : forall r : Res (option error),
             attempt = r -> result_of r <> Some None -> run = r ->
             (pending (world_of run) !! key_of key = Some (setDelivered voicemail)
              <-> result_of r = Some None
                  /\ exists key' w2,
                      store_Put key (setDelivered voicemail) (world_of r)
                      = Ok (inl key') w2)
             /\ (result_of r <> Some None ->
                 run = r /\ pending (world_of run) = pending w)
             /\ (result_of r = Some None ->
                 forall r' w2,
                   store_Put key (setDelivered voicemail) (world_of r) = Ok r' w2 ->
                   match r' with
                   | inl _ =>
                       run = Ok None w2
                       /\ pending w2
                          = <[key_of key := setDelivered voicemail]> (pending w)
                   | inr e => run = Ok (Some e) w2 /\ pending w2 = pending w
                   end)).
  { intros r Hr Hne Heq. subst r. rewrite Heq.
    split; [split; [intros H; now rewrite Hpending in H | now intros [? _]]|].
    split; [intros _; now split | intros H; contradiction]. }
  destruct attempt as [[e|] w1|msg w1] eqn:Hattempt;
    [apply Hfail; [reflexivity | discriminate | exact Hrun] | |
     apply Hfail; [reflexivity | discriminate | exact Hrun]].
  clear Hfail. simpl in Hpending, Hrun |- *.
  destruct (store_Put key (setDelivered voicemail) w1) as [[key'|e] w2|msg w2] eqn:Hput.
  - apply store_Put_ok in Hput as (Hp & _ & Hsame & _).
    specialize (Hsame Hkey). subst key'. rewrite Hpending in Hp.
    split; [split; [intros _; split; [reflexivity | eauto] | intros _]|].
    + rewrite Hrun. simpl. rewrite Hp. apply lookup_insert_eq.
    + split; [intros H; now destruct H|].
      intros _ r w3 H. injection H as <- <-. split; [exact Hrun | exact Hp].
  - apply store_Put_failed in Hput as ->.
    split; [split; [intros H | intros [_ (? & ? & ?)]; discriminate]|].
    + rewrite Hrun in H. simpl in H. now rewrite Hpending in H.
    + split; [intros H; now destruct H|].
      intros _ r w3 H. injection H as <- <-. split; [exact Hrun | exact Hpending].
  - destruct (store_Put_total key (setDelivered voicemail) w1) as (r & w3 & H).
    congruence.
Qed.

Lemma pending_marked_delivered_witness :
  pending (world_of (deliverPendingVoicemail (IDKey "PendingVoicemail" 5) waiting
                       (waiting_world one_record))) !! (5, "")
  = Some (setDelivered waiting).
Proof.
  refine (proj2 (proj1 (pending_marked_delivered
                   (IDKey "PendingVoicemail" 5) waiting (waiting_world one_record)
                   _ _ _)) (conj _ _)).
  - reflexivity.
  - reflexivity.
  - reflexivity.
  - reflexivity.
  - exists (IDKey "PendingVoicemail" 5).
    exists (world_of (store_Put (IDKey "PendingVoicemail" 5) (setDelivered waiting)
              (world_of (deliverVoicemail (From waiting) (To waiting)
                           (AudioURL waiting) true (waiting_world one_record))))).
    vm_compute. reflexivity.
Defined.

(** C9 as stated fails when the datastore refuses the update: both have
    linked an account, the retry posts the voicemail and has no error, the
    third datastore call (the update) fails, and the voicemail is still
    not marked delivered.  The flusher logs the error of the update. *)
Lemma pending_marked_delivered_as_stated_fails :
  pending (with_faults third_fails (waiting_world one_record)) !! (5, "") = Some waiting
  /\ result_of (deliverVoicemail (From waiting) (To waiting) (AudioURL waiting) true
                  (with_faults third_fails (waiting_world one_record)))
     = Some None
  /\ result_of (deliverPendingVoicemail (IDKey "PendingVoicemail" 5) waiting
                  (with_faults third_fails (waiting_world one_record)))
     = Some (Some (LibError "datastore: unavailable"))
  /\ posts (world_of (deliverPendingVoicemail (IDKey "PendingVoicemail" 5) waiting
                        (with_faults third_fails (waiting_world one_record))))
     = [ {| accountId := 17; streamId := 0;
            fields := {[ "participant" := ["42"];
                         "audio_url" := ["https://h/rec123.mp3"] ]} |} ]
  /\ pending (world_of (deliverPendingVoicemail (IDKey "PendingVoicemail" 5) waiting
                          (with_faults third_fails (waiting_world one_record))))
       !! (5, "")
     = Some waiting
  /\ Delivered waiting = false
  /\ (fun r => logs (world_of r))
       <$> flushPendingQueue 2 (with_faults third_fails (waiting_world one_record))
     = Some [LogPendingFailed (LibError "datastore: unavailable")].
Proof. repeat split. Qed.

(** *** The loop *)

(** The flusher hands every voicemail that the iterator returns to
    [deliverPendingVoicemail], logs the outcome and goes on. *)
Lemma flushLoop_record (t : Iterator) (i fuel : nat) (w : World)
      (key : Key) (voicemail : PendingVoicemail) :
  t i = Next key voicemail ->
  flushLoop (S fuel) t i w
  = match deliverPendingVoicemail key voicemail w with
    | Ok (Some err) w' => flushLoop fuel t (S i) (add_log (LogPendingFailed err) w')
    | Ok None w' =>
        flushLoop fuel t (S i) (add_log (LogPendingDelivered (To voicemail)) w')
    | Panic msg w' => Some (Panic msg w')
    end.
Proof. intros H. simpl. now rewrite H. Qed.

(** The loop ends when the iterator is done: with fuel for every call
    of [Next] up to the first [Done] it has a result. *)
Lemma flushLoop_ends (t : Iterator) (n : nat) :
  t n = Done ->
  forall k i w, (i + k = n)%nat -> exists r, flushLoop (S k) t i w = Some r.
Proof.
  intros Hdone. induction k as [|k IH]; intros i w Hi.
  - replace i with n by lia. simpl. rewrite Hdone. eauto.
  - cbn [flushLoop]. fold (flushLoop (S k)).
    destruct (t i) as [|e|key voicemail]; [eauto | apply IH; lia |].
    destruct (deliverPendingVoicemail key voicemail w) as [[e|] w'|msg w'];
      [apply IH; lia | apply IH; lia | eauto].
Qed.

(** X18: an iterator that, from some call on, returns an error at every
    call keeps the loop going once it gets there: the flush has no result,
    whatever the fuel, and logs the error again and again. *)
Lemma flushLoop_error_forever (t : Iterator) (i : nat) :
  (forall j, (i <= j)%nat -> exists e, t j = NextError e) ->
  forall fuel k w, flushLoop fuel t (i + k) w = None.
Proof.
  intros Herr. induction fuel as [|fuel IH]; intros k w; [reflexivity|].
  simpl. destruct (Herr (i + k)%nat) as [e ->]; [lia|].
  rewrite <- Nat.add_succ_r. apply IH.
Qed.

(** C5, as the code has it: when [Next] returns an error that is not
    [Done], the flusher logs it and goes on with the next call of [Next]:
    the scan is not stopped, and a voicemail that the iterator returns
    next is processed. *)
Theorem flush_continues_after_error (t : Iterator) (i fuel : nat) (w : World) (e : string) :
  t i = NextError e ->
  flushLoop (S fuel) t i w = flushLoop fuel t (S i) (add_log (LogGetPendingFailed e) w)
  /\ forall key voicemail,
      t (S i) = Next key voicemail ->
      flushLoop (S (S fuel)) t i w
      = match deliverPendingVoicemail key voicemail
                (add_log (LogGetPendingFailed e) w) with
        | Ok (Some err) w' =>
            flushLoop fuel t (S (S i)) (add_log (LogPendingFailed err) w')
        | Ok None w' =>
            flushLoop fuel t (S (S i))
              (add_log (LogPendingDelivered (To voicemail)) w')
        | Panic msg w' => Some (Panic msg w')
        end.
Proof.
  intros He. split.
  - simpl. now rewrite He.
  - intros key voicemail Hnext. cbn [flushLoop]. now rewrite He, Hnext.
Qed.

Lemma flush_continues_after_error_witness :
  flushLoop 3 error_then_record 0 (waiting_world error_then_record)
  = flushLoop 2 error_then_record 1
      (add_log (LogGetPendingFailed "datastore: cannot load field")
         (waiting_world error_then_record)).
Proof.
  refine (proj1 (flush_continues_after_error error_then_record 0 2
                   (waiting_world error_then_record)
                   "datastore: cannot load field" _)).
  reflexivity.
Defined.

(** C5 as stated fails: the iterator returns an error and then the
    waiting voicemail; the flusher logs the error, and then delivers the
    voicemail and marks it delivered. *)
Lemma flush_stops_as_stated_fails :
  store_Run (waiting_world error_then_record) 0%nat
  = NextError "datastore: cannot load field"
  /\ (fun r => logs (world_of r)) <$> flushPendingQueue 3 (waiting_world error_then_record)
     = Some [LogGetPendingFailed "datastore: cannot load field";
             LogPendingDelivered "+15559998888"]
  /\ (fun r => posts (world_of r)) <$> flushPendingQueue 3 (waiting_world error_then_record)
     = Some [ {| accountId := 17; streamId := 0;
                 fields := {[ "participant" := ["42"];
                              "audio_url" := ["https://h/rec123.mp3"] ]} |} ]
  /\ (fun r => pending (world_of r) !! (5, ""))
       <$> flushPendingQueue 3 (waiting_world error_then_record)
     = Some (Some (setDelivered waiting)).
Proof. repeat split. Qed.

End Flush.

(** ** The scenarios of the specification *)

Section Scenarios.

(** A completed call whose recording URL has no extension, to a
    recipient without identity: one pending voicemail with the [.mp3]
    URL is stored, and the handler logs the stored-pending error. *)
Example call_queued :
  let r := {| Method := "POST"; Path := "/v1/call"; Query := ∅;
              ParseForm := inl {[ "From" := ["+15551230000"];
                                  "ForwardedFrom" := ["+15559998888"];
                                  "RecordingUrl" := ["https://h/rec123"] ]} |} in
  result_of (callHandler r quiet) = Some None
  /\ pending (world_of (callHandler r quiet)) = {[ (1, "") := waiting ]}
  /\ logs (world_of (callHandler r quiet))
     = [ LogVoicemail "+15551230000" "+15559998888" "https://h/rec123.mp3";
         LogDeliverFailed (ErrStoredPending "+15559998888" 1);
         LogHandled "POST" "/v1/call" ]
  /\ posts (world_of (callHandler r quiet)) = [].
Proof. repeat split. Qed.

(** The same voicemail on a retry, the recipient still without identity:
    nothing is written. *)
Example retry_still_without_account :
  deliverVoicemail "+15551230000" "+15559998888" "https://h/rec123.mp3" true quiet
  = Ok (Some (ErrStillNoAccount "+15559998888")) (tick (tick quiet))
  /\ Error (ErrStillNoAccount "+15559998888")
     = "retried delivery but +15559998888 still doesn't have an account".
Proof. split; reflexivity. Qed.

(** A call that is picked up: the handler answers with the recording
    instructions. *)
Example call_picked_up :
  result_of (callHandler {| Method := "GET"; Path := "/v1/call"; Query := ∅;
                            ParseForm := inl ∅ |} quiet)
  = Some (Some Response).
Proof. reflexivity. Qed.

Example normalize_no_ext :
  normalizeAudioURL "https://api.twilio.com/2010-04-01/Recordings/rec123"
  = "https://api.twilio.com/2010-04-01/Recordings/rec123.mp3".
Proof. reflexivity. Qed.

Example normalize_wav : normalizeAudioURL "http://h/a.b/rec.wav" = "http://h/a.b/rec.mp3".
Proof. reflexivity. Qed.

Example normalize_other : normalizeAudioURL "http://h/rec.ogg" = "http://h/rec.ogg".
Proof. reflexivity. Qed.

Example format_int :
  Go.FormatInt (-42) = "-42" /\ Go.FormatInt 0 = "0" /\ Go.FormatInt 1207 = "1207".
Proof. repeat split. Qed.

Example stored_pending_message :
  Error (ErrStoredPending "+15559998888" 1)
  = "receiver +15559998888 doesn't have an account, stored pending voicemail (1)".
Proof. reflexivity. Qed.

End Scenarios.

(** ** Every course of a delivery *)

Section Courses.

Lemma store_Put_incomplete (kind : string) (src : PendingVoicemail) (w : World) :
  (exists e, store_Put (IncompleteKey kind) src w = Ok (inr (LibError e)) (tick w))
  \/ (exists id,
        0 < id /\ pending w !! (id, "") = None
        /\ store_Put (IncompleteKey kind) src w
           = Ok (inl {| Kind := kind; ID := id; Name := "" |})
                (set_pending (<[(id, "") := src]> (pending w)) (tick w))).
Proof.
  unfold store_Put. destruct (storeFault w (storeOps w)) as [e|]; [left; eauto|].
  right. exists (allocateID (pending w)).
  split; [apply allocateID_pos|]. split; [apply allocateID_fresh | reflexivity].
Qed.

(** [deliverVoicemail] ends in one of the eight ways of [Attempt]. *)
Lemma deliverVoicemail_attempt (from to audioURL : string) (retrying : bool) (w : World) :
  Attempt from to audioURL retrying w (deliverVoicemail from to audioURL retrying w).
Proof.
  destruct (decide (to = "")) as [->|Hto].
  { apply Rejected. reflexivity. }
  destruct (getIdentityPair_total (senderOf from) to w) as (fi & ti & Hpair).
  destruct (nil_or_Available ti) eqn:Hti.
  - rewrite (deliver_no_account _ _ _ _ _ _ _ _ _ Hto Hpair Hti).
    destruct retrying; [eapply StillNoAccount; eauto|].
    destruct (store_Put_incomplete "PendingVoicemail"
                {| From := senderOf from; To := to; AudioURL := audioURL;
                   Delivered := false |} (tick (tick w)))
      as [(e & ->)|(id & Hpos & Hfresh & ->)].
    + eapply NotStored; eauto.
    + change (pending (tick (tick w))) with (pending w) in *.
      eapply Queued; eauto.
  - destruct ti as [ti|]; [|discriminate]. simpl in Hti.
    destruct (Account ti) as [toKey|] eqn:HtoKey.
    2:{ rewrite (deliver_nil_account_panics _ _ _ _ _ _ _ _ _ Hpair Hti HtoKey).
        eapply NilAccount; [exact Hto | exact Hpair | exact Hti | left; exact HtoKey]. }
    destruct (not_nil_and_not_Available fi) eqn:Hfi.
    + destruct fi as [fi|]; [|discriminate]. simpl in Hfi.
      apply negb_true_iff in Hfi.
      destruct (Account fi) as [fromKey|] eqn:HfromKey.
      * rewrite (deliver_linked_sender _ _ _ _ _ _ _ _ _ _ Hpair Hti HtoKey
                   fi fromKey eq_refl Hfi HfromKey).
        destruct (postStream_total (ID fromKey) 0
                    (fields (directCall (ID fromKey) (ID toKey) audioURL)) (tick (tick w)))
          as (stream & err & Hps & _).
        cbn [fields directCall] in Hps |- *. rewrite Hps.
        eapply Direct; eauto.
      * assert (deliverVoicemail from to audioURL retrying w
                = Panic "invalid memory address or nil pointer dereference"
                    (tick (tick w))) as ->.
        { unfold deliverVoicemail.
          destruct (decide (to = "")) as [?|_]; [contradiction|].
          unfold bind at 1. rewrite Hpair. cbn [nil_or_Available]. rewrite Hti.
          unfold bind at 1. cbn [Account_ID]. rewrite HtoKey. cbn [Key_ID ret].
          cbn [not_nil_and_not_Available]. rewrite Hfi. cbn [negb].
          unfold bind at 1. cbn [Account_ID]. now rewrite HfromKey. }
        eapply NilAccount; [exact Hto | exact Hpair | exact Hti | right; eauto].
    + rewrite (deliver_unlinked_sender _ _ _ _ _ _ _ _ _ _ Hpair Hti HtoKey Hfi).
      destruct (postStream_total (ID toKey) 0 (fields (createCall (ID toKey) from))
                  (tick (tick w))) as (stream & err1 & Hps & Hstream).
      pose proof Hps as Hps'. unfold createCall in Hps'. cbn [fields] in Hps'.
      rewrite Hps'.
      destruct err1 as [e|].
      * pose proof (ReverseFailed from to audioURL retrying w fi ti toKey stream e
                      Hto Hpair Hti HtoKey Hfi Hps) as H.
        destruct stream; exact H.
      * destruct stream as [stream|]; [|now destruct Hstream].
        destruct (postStream_total (accountId (appendCall (ID toKey) stream audioURL))
                    (streamId (appendCall (ID toKey) stream audioURL))
                    (fields (appendCall (ID toKey) stream audioURL))
                    (add_post (createCall (ID toKey) from) (tick (tick w))))
          as (stream' & err & Hps2 & _).
        pose proof Hps2 as Hps2'.
        unfold createCall, appendCall in Hps2'.
        cbn [fields accountId streamId] in Hps2'.
        rewrite Hps2'.
        exact (Reversed from to audioURL retrying w fi ti toKey stream stream' err
                 Hto Hpair Hti HtoKey Hfi Hps Hps2).
Qed.

End Courses.

(** ** What a delivery does to the world *)

Section DeliveryEffects.

Lemma senderOf_not_empty (from : string) : senderOf from <> "".
Proof. unfold senderOf. destruct (decide (from = "")); [discriminate | assumption]. Qed.

Lemma senderOf_idempotent (from : string) : senderOf (senderOf from) = senderOf from.
Proof.
  unfold senderOf at 1. destruct (decide (senderOf from = "")) as [H|_]; [|reflexivity].
  now apply senderOf_not_empty in H.
Qed.

(** X1: a delivery reads the identities and never writes them, writes
    nothing to the log, and leaves the environment (the faults of the
    datastore, the platform, the results of the query) as it was: all it
    can change are the pending voicemails, the recorded posts and the count
    of datastore calls. *)
Theorem deliverVoicemail_frame (from to audioURL : string) (retrying : bool) (w : World) :
  identities (world_of (deliverVoicemail from to audioURL retrying w)) = identities w
  /\ logs (world_of (deliverVoicemail from to audioURL retrying w)) = logs w
  /\ storeFault (world_of (deliverVoicemail from to audioURL retrying w)) = storeFault w
  /\ platform (world_of (deliverVoicemail from to audioURL retrying w)) = platform w
  /\ queryResults (world_of (deliverVoicemail from to audioURL retrying w))
     = queryResults w.
Proof.
  destruct (deliverVoicemail_attempt from to audioURL retrying w); repeat split.
Qed.

(** X2: a delivery makes at most two requests to the platform, which it
    adds after the recorded ones, and at most three datastore calls; with
    a recipient that is not empty it makes the two lookups at least. *)
Theorem deliverVoicemail_bounds (from to audioURL : string) (retrying : bool) (w : World) :
  (exists new,
     posts (world_of (deliverVoicemail from to audioURL retrying w))
     = (posts w ++ new)%list
     /\ (length new <= 2)%nat)
  /\ (storeOps w
      <= storeOps (world_of (deliverVoicemail from to audioURL retrying w))
      <= storeOps w + 3)%nat
  /\ (to <> "" ->
      (storeOps w + 2
       <= storeOps (world_of (deliverVoicemail from to audioURL retrying w)))%nat).
Proof.
  destruct (deliverVoicemail_attempt from to audioURL retrying w); simpl;
    (split; [|split; [lia | intros; try contradiction; lia]]).
  1-5: exists []; rewrite app_nil_r; split; [reflexivity | simpl; lia].
  1-2: eexists [_]; split; [reflexivity | simpl; lia].
  eexists [_; _]. rewrite <- app_assoc. split; [reflexivity | simpl; lia].
Qed.

Lemma deliverVoicemail_bounds_witness :
  (storeOps quiet + 2
   <= storeOps (world_of (deliverVoicemail "+15551230000" "+15559998888"
                            "https://h/rec123.mp3" true quiet)))%nat.
Proof.
  refine (proj2 (proj2 (deliverVoicemail_bounds "+15551230000" "+15559998888"
                          "https://h/rec123.mp3" true quiet)) _).
  discriminate.
Defined.

(** X3: a delivery never changes and never removes a pending voicemail
    that is stored.  Either the pending voicemails are the same, or it is a
    first delivery, the result is the stored-pending error with an id that
    is positive and was free, and the only difference is the new voicemail
    under that id: undelivered, with the audio URL of the call and with a
    sender and a recipient that are not empty. *)
Theorem deliverVoicemail_pending (from to audioURL : string) (retrying : bool) (w : World) :
  (forall k v,
     pending w !! k = Some v ->
     pending (world_of (deliverVoicemail from to audioURL retrying w)) !! k = Some v)
  /\ (pending (world_of (deliverVoicemail from to audioURL retrying w)) = pending w
      \/ exists id,
          retrying = false /\ 0 < id /\ pending w !! (id, "") = None
          /\ result_of (deliverVoicemail from to audioURL retrying w)
             = Some (Some (ErrStoredPending to id))
          /\ pending (world_of (deliverVoicemail from to audioURL retrying w))
             = <[(id, "") := newPending from to audioURL]> (pending w)
          /\ From (newPending from to audioURL) <> ""
          /\ To (newPending from to audioURL) = to /\ to <> ""
          /\ AudioURL (newPending from to audioURL) = audioURL
          /\ Delivered (newPending from to audioURL) = false).
Proof.
  destruct (deliverVoicemail_attempt from to audioURL retrying w)
    as [| | fi ti id Hto Hpair Hti Hretry Hpos Hfresh | | | | |]; simpl;
    try (split; [auto | left; reflexivity]).
  split.
  - intros k v Hk. rewrite lookup_insert_ne; [exact Hk|]. congruence.
  - right. exists id. repeat split; auto using senderOf_not_empty.
Qed.

(** X4: a delivery never both stores a pending voicemail and posts to the
    platform, and its stored-pending error tells the truth: it is returned
    exactly when the pending voicemails have changed. *)
Theorem deliverVoicemail_stores_or_posts
        (from to audioURL : string) (retrying : bool) (w : World) :
  (posts (world_of (deliverVoicemail from to audioURL retrying w)) = posts w
   \/ pending (world_of (deliverVoicemail from to audioURL retrying w)) = pending w)
  /\ ((exists id, result_of (deliverVoicemail from to audioURL retrying w)
                  = Some (Some (ErrStoredPending to id)))
      <-> pending (world_of (deliverVoicemail from to audioURL retrying w)) <> pending w).
Proof.
  destruct (deliverVoicemail_attempt from to audioURL retrying w)
    as [| | fi ti id Hto Hpair Hti Hretry Hpos Hfresh | |
        | fi ti fromKey toKey stream err Hto Hpair Hti HtoKey Hfi HfromKey Hps
        | fi ti toKey stream e Hto Hpair Hti HtoKey Hfi Hps
        | fi ti toKey stream stream' err Hto Hpair Hti HtoKey Hfi Hps Hps2]; simpl.
  1,2,4,5: split; [now left|];
    split; [intros [id' Hres]; discriminate | intros Hne; now destruct Hne].
  - split; [now left|]. split; [intros _ Heq | eauto].
    apply (f_equal (fun m => m !! (id, ""))) in Heq.
    rewrite lookup_insert_eq, Hfresh in Heq. discriminate.
  - split; [now right|]. split; [intros [id Hres] | intros Hne; now destruct Hne].
    injection Hres as ->. exfalso.
    exact (postStream_error _ _ _ _ _ _ _ Hps to id eq_refl).
  - split; [now right|]. split; [intros [id Hres] | intros Hne; now destruct Hne].
    injection Hres as ->. exfalso.
    exact (postStream_error _ _ _ _ _ _ _ Hps to id eq_refl).
  - split; [now right|]. split; [intros [id Hres] | intros Hne; now destruct Hne].
    injection Hres as ->. exfalso.
    exact (postStream_error _ _ _ _ _ _ _ Hps2 to id eq_refl).
Qed.

End DeliveryEffects.

(** ** What the result of a delivery tells *)

Section DeliveryResults.

Lemma directCall_audio (fromId toId : Z) (audioURL : string) :
  fields (directCall fromId toId audioURL) !! "audio_url" = Some [audioURL].
Proof.
  unfold directCall. cbn [fields].
  rewrite lookup_insert_ne by discriminate. apply lookup_singleton_eq.
Qed.

Lemma appendCall_audio (toId : Z) (stream : Stream.t) (audioURL : string) :
  fields (appendCall toId stream audioURL) !! "audio_url" = Some [audioURL].
Proof. unfold appendCall. cbn [fields]. apply lookup_singleton_eq. Qed.

Lemma createCall_no_audio (toId : Z) (from : string) :
  fields (createCall toId from) !! "audio_url" = None.
Proof.
  unfold createCall. cbn [fields].
  rewrite lookup_insert_ne by discriminate. now rewrite lookup_singleton_ne.
Qed.

Lemma postStream_accepted (c : PostCall) (w w' : World) stream :
  postStream (accountId c) (streamId c) (fields c) w = Ok (stream, None) w' ->
  exists status decoded,
    platform w (length (posts w)) (request_of c) = Reply 200 status (Decoded decoded).
Proof.
  intros H.
  destruct (proj1 (postStream_nil_error_iff (accountId c) (streamId c) (fields c) w))
    as (status & decoded & Hp); [eauto|].
  exists status, decoded. now destruct c.
Qed.

(** X5: a delivery without error has posted the audio.  The last request
    of the delivery has the field [audio_url] with the audio URL of the
    call, the platform has answered it with the status 200 and a stream
    that decodes, at most one request (the creation of the stream) was made
    before it, and no pending voicemail was written. *)
Theorem deliverVoicemail_nil_means_posted
        (from to audioURL : string) (retrying : bool) (w : World) :
  result_of (deliverVoicemail from to audioURL retrying w) = Some None ->
  exists before c status stream,
    posts (world_of (deliverVoicemail from to audioURL retrying w))
    = (posts w ++ before ++ [c])%list
    /\ (length before <= 1)%nat
    /\ fields c !! "audio_url" = Some [audioURL]
    /\ platform w (length (posts w ++ before)) (request_of c)
       = Reply 200 status (Decoded stream)
    /\ pending (world_of (deliverVoicemail from to audioURL retrying w)) = pending w
    /\ to <> "".
Proof.
  destruct (deliverVoicemail_attempt from to audioURL retrying w)
    as [| | | |
        | fi ti fromKey toKey stream err Hto Hpair Hti HtoKey Hfi HfromKey Hps
        | fi ti toKey stream e Hto Hpair Hti HtoKey Hfi Hps
        | fi ti toKey stream stream' err Hto Hpair Hti HtoKey Hfi Hps Hps2];
    simpl; intros Hnil; try discriminate; injection Hnil as ->.
  - destruct (postStream_accepted (directCall (ID fromKey) (ID toKey) audioURL)
                _ _ _ Hps) as (status & decoded & Hp).
    exists [], (directCall (ID fromKey) (ID toKey) audioURL), status, decoded.
    rewrite app_nil_r. repeat split; auto using directCall_audio.
  - destruct (postStream_accepted (appendCall (ID toKey) stream audioURL) _ _ _ Hps2)
      as (status & decoded & Hp).
    exists [createCall (ID toKey) from], (appendCall (ID toKey) stream audioURL),
      status, decoded.
    rewrite <- app_assoc. repeat split; auto using appendCall_audio.
Qed.

Lemma deliverVoicemail_nil_means_posted_witness :
  exists before c status stream,
    posts (world_of (deliverVoicemail "+15551230000" "+15559998888"
                       "https://h/rec123.mp3" false linked_world))
    = (posts linked_world ++ before ++ [c])%list
    /\ (length before <= 1)%nat
    /\ fields c !! "audio_url" = Some ["https://h/rec123.mp3"]
    /\ platform linked_world (length (posts linked_world ++ before)) (request_of c)
       = Reply 200 status (Decoded stream)
    /\ pending (world_of (deliverVoicemail "+15551230000" "+15559998888"
                            "https://h/rec123.mp3" false linked_world))
       = pending linked_world
    /\ "+15559998888" <> "".
Proof.
  apply (deliverVoicemail_nil_means_posted "+15551230000" "+15559998888"
           "https://h/rec123.mp3" false linked_world).
  reflexivity.
Defined.

(** X6: a delivery posts the audio at most once: of the requests that it
    adds, at most one has the field [audio_url]. *)
Theorem deliverVoicemail_audio_once
        (from to audioURL : string) (retrying : bool) (w : World) :
  exists new,
    posts (world_of (deliverVoicemail from to audioURL retrying w))
    = (posts w ++ new)%list
    /\ (length (filter (fun c => carries_audio c = true) new) <= 1)%nat.
Proof.
  destruct (deliverVoicemail_attempt from to audioURL retrying w); simpl.
  1-5: exists []; rewrite app_nil_r; split; [reflexivity | simpl; lia].
  - eexists [_]. split; [reflexivity|].
    rewrite filter_cons, filter_nil. destruct (decide _); simpl; lia.
  - eexists [_]. split; [reflexivity|].
    rewrite filter_cons, filter_nil. destruct (decide _); simpl; lia.
  - eexists [_; _]. rewrite <- app_assoc. split; [reflexivity|].
    rewrite filter_cons. destruct (decide _) as [Hc|_].
    + unfold carries_audio in Hc. now rewrite createCall_no_audio in Hc.
    + rewrite filter_cons, filter_nil. destruct (decide _); simpl; lia.
Qed.

(** X7: the sender that is stored and posted is the sender of the call,
    or the placeholder for an empty one, and a delivery cannot tell the two
    apart: a call without sender is the call of the sender [unknownuser],
    lookup included, and the voicemail that a first delivery stores is
    retried as the call that stored it. *)
Theorem deliverVoicemail_placeholder
        (from to audioURL : string) (retrying : bool) (w : World) :
  deliverVoicemail "" to audioURL retrying w
  = deliverVoicemail "unknownuser" to audioURL retrying w
  /\ deliverVoicemail (From (newPending from to audioURL)) (To (newPending from to audioURL))
       (AudioURL (newPending from to audioURL)) retrying w
     = deliverVoicemail from to audioURL retrying w.
Proof.
  split; [reflexivity|].
  cbn [newPending From To AudioURL]. unfold deliverVoicemail.
  now rewrite senderOf_idempotent.
Qed.

(** X8: a delivery panics exactly when the recipient is not empty, the
    lookup finds an identity of the recipient with [Available = false], and
    that identity has no account key or the identity found for the sender
    has [Available = false] and no account key.  It panics before any
    request to the platform and without a write to the datastore. *)
Theorem deliverVoicemail_panics_iff
        (from to audioURL : string) (retrying : bool) (w : World) :
  (result_of (deliverVoicemail from to audioURL retrying w) = None
   <-> to <> ""
       /\ exists fromIdentity toIdentity,
           getIdentityPair (senderOf from) to w
           = Ok (fromIdentity, Some toIdentity, None) (tick (tick w))
           /\ Available toIdentity = false
           /\ (Account toIdentity = None
               \/ exists fromId, fromIdentity = Some fromId
                                 /\ Available fromId = false /\ Account fromId = None))
  /\ (result_of (deliverVoicemail from to audioURL retrying w) = None ->
      posts (world_of (deliverVoicemail from to audioURL retrying w)) = posts w
      /\ pending (world_of (deliverVoicemail from to audioURL retrying w)) = pending w).
Proof.
  destruct (deliverVoicemail_attempt from to audioURL retrying w)
    as [Hto | fi ti Hto Hpair Hti Hretry
        | fi ti id Hto Hpair Hti Hretry Hpos Hfresh
        | fi ti e Hto Hpair Hti Hretry
        | fi ti Hto Hpair Hti Hnil
        | fi ti fromKey toKey stream err Hto Hpair Hti HtoKey Hfi HfromKey Hps
        | fi ti toKey stream e Hto Hpair Hti HtoKey Hfi Hps
        | fi ti toKey stream stream' err Hto Hpair Hti HtoKey Hfi Hps Hps2];
    simpl; (split; [split; [try discriminate | intros (Hne & fi' & ti' & Hpair' & Hti' & Hacc)]
                   | try discriminate]).
  - contradiction.
  - rewrite Hpair in Hpair'. injection Hpair' as -> ->. simpl in Hti. congruence.
  - rewrite Hpair in Hpair'. injection Hpair' as -> ->. simpl in Hti. congruence.
  - rewrite Hpair in Hpair'. injection Hpair' as -> ->. simpl in Hti. congruence.
  - intros _. split; [exact Hto|]. eauto 10.
  - reflexivity.
  - auto.
  - rewrite Hpair in Hpair'. injection Hpair' as <- <-.
    destruct Hacc as [Hacc|(fromId & Heq & _ & Hacc)]; [congruence|].
    injection Heq as <-. congruence.
  - rewrite Hpair in Hpair'. injection Hpair' as <- <-.
    destruct Hacc as [Hacc|(fromId & -> & Hav & Hacc)]; [congruence|].
    simpl in Hfi. rewrite Hav in Hfi. discriminate.
  - rewrite Hpair in Hpair'. injection Hpair' as <- <-.
    destruct Hacc as [Hacc|(fromId & -> & Hav & Hacc)]; [congruence|].
    simpl in Hfi. rewrite Hav in Hfi. discriminate.
Qed.

(** X9: the retry flag matters only for a recipient that cannot be
    reached: when the lookup finds an identity of the recipient with
    [Available = false], a retry and a first delivery are the same. *)
Theorem deliverVoicemail_retry_flag
        (from to audioURL : string) (w w1 : World) fromIdentity toIdentity err :
  getIdentityPair (senderOf from) to w = Ok (fromIdentity, toIdentity, err) w1 ->
  nil_or_Available toIdentity = false ->
  deliverVoicemail from to audioURL true w = deliverVoicemail from to audioURL false w.
Proof.
  intros Hpair Hti. unfold deliverVoicemail, bind.
  destruct (decide (to = "")); [reflexivity|].
  rewrite Hpair. cbv beta iota. rewrite Hti. reflexivity.
Qed.

Lemma deliverVoicemail_retry_flag_witness :
  deliverVoicemail "+15551230000" "+15559998888" "https://h/rec123.mp3" true recipient_world
  = deliverVoicemail "+15551230000" "+15559998888" "https://h/rec123.mp3" false
      recipient_world.
Proof.
  refine (deliverVoicemail_retry_flag "+15551230000" "+15559998888"
            "https://h/rec123.mp3" recipient_world (tick (tick recipient_world))
            None (Some (linked 42)) None _ _).
  - reflexivity.
  - reflexivity.
Defined.

End DeliveryResults.

(** ** The lookups *)

Section Lookups.

Lemma store_Get_sound (name : string) (w w' : World) (i : Identity) :
  store_Get (NameKey "Identity" name) w = Ok (inl i) w' ->
  name <> "" /\ identities w !! (0, name) = Some i.
Proof.
  unfold store_Get. destruct (storeFault w (storeOps w)); [discriminate|].
  unfold Incomplete, key_of. cbn [ID Name NameKey]. cbn [Z.eqb andb].
  destruct (String.eqb_spec name "") as [->|Hne]; [discriminate|].
  destruct (identities w !! (0, name)) as [i'|]; [|discriminate].
  intros H. injection H as -> _. auto.
Qed.

Lemma store_Get_complete (name : string) (w : World) :
  storeFault w (storeOps w) = None -> name <> "" ->
  store_Get (NameKey "Identity" name) w
  = Ok (match identities w !! (0, name) with
        | Some i => inl i
        | None => inr (LibError "datastore: no such entity")
        end) (tick w).
Proof.
  intros Hf Hne. unfold store_Get. rewrite Hf.
  unfold Incomplete, key_of. cbn [ID Name NameKey]. cbn [Z.eqb andb].
  destruct (String.eqb_spec name "") as [->|_]; [contradiction|].
  now destruct (identities w !! (0, name)).
Qed.

(** An identity that [getIdentityPair] returns is stored under the name. *)
Lemma getIdentityPair_sound (a b : string) (w w1 : World) aa bb err :
  getIdentityPair a b w = Ok (aa, bb, err) w1 ->
  (forall i, aa = Some i -> a <> "" /\ identities w !! (0, a) = Some i)
  /\ (forall i, bb = Some i -> b <> "" /\ identities w !! (0, b) = Some i).
Proof.
  unfold getIdentityPair, bind, ret.
  destruct (store_Get_world (NameKey "Identity" a) w) as [ra Ha]. rewrite Ha.
  destruct (store_Get_world (NameKey "Identity" b) (tick w)) as [rb Hb]. rewrite Hb.
  intros H. injection H as <- <- _ _. split; intros i Hi.
  - destruct ra as [ia|]; [|discriminate]. injection Hi as ->.
    eapply store_Get_sound. exact Ha.
  - destruct rb as [ib|]; [|discriminate]. injection Hi as ->.
    apply store_Get_sound in Hb. exact Hb.
Qed.

(** X10: [getIdentityPair] makes two datastore calls and returns a nil
    error whatever they return.  An identity that it returns is the one
    stored under the phone number, which is not empty; and when the
    datastore does not fail a lookup of a phone number that is not empty,
    the result of that lookup is exactly what is stored: the identity, or
    nil when there is none. *)
Theorem getIdentityPair_stored (a b : string) (w : World) :
  exists aa bb,
    getIdentityPair a b w = Ok (aa, bb, None) (tick (tick w))
    /\ (forall i, aa = Some i -> a <> "" /\ identities w !! (0, a) = Some i)
    /\ (forall i, bb = Some i -> b <> "" /\ identities w !! (0, b) = Some i)
    /\ (storeFault w (storeOps w) = None -> a <> "" -> aa = identities w !! (0, a))
    /\ (storeFault w (S (storeOps w)) = None -> b <> "" -> bb = identities w !! (0, b)).
Proof.
  destruct (getIdentityPair_total a b w) as (aa & bb & Hpair).
  exists aa, bb. split; [exact Hpair|].
  destruct (getIdentityPair_sound _ _ _ _ _ _ _ Hpair) as [Ha Hb].
  split; [exact Ha|]. split; [exact Hb|].
  revert Hpair. unfold getIdentityPair, bind, ret.
  split; intros Hf Hne.
  - rewrite (store_Get_complete a w Hf Hne) in Hpair.
    destruct (store_Get_world (NameKey "Identity" b) (tick w)) as [rb Hb'].
    rewrite Hb' in Hpair. injection Hpair as <- _.
    now destruct (identities w !! (0, a)).
  - destruct (store_Get_world (NameKey "Identity" a) w) as [ra Ha'].
    rewrite Ha' in Hpair.
    rewrite (store_Get_complete b (tick w) Hf Hne) in Hpair.
    injection Hpair as _ <-.
    change (identities (tick w)) with (identities w).
    now destruct (identities w !! (0, b)).
Qed.

Lemma getIdentityPair_stored_witness :
  exists aa bb,
    getIdentityPair "+15551230000" "+15559998888" recipient_world
    = Ok (aa, bb, None) (tick (tick recipient_world))
    /\ aa = identities recipient_world !! (0, "+15551230000")
    /\ bb = identities recipient_world !! (0, "+15559998888").
Proof.
  destruct (getIdentityPair_stored "+15551230000" "+15559998888" recipient_world)
    as (aa & bb & Hpair & _ & _ & Ha & Hb).
  exists aa, bb. split; [exact Hpair|]. split.
  - apply Ha; [reflexivity | discriminate].
  - apply Hb; [reflexivity | discriminate].
Defined.

End Lookups.

(** ** The requests of [postStream] *)

Section Requests.

Lemma to_int_not_nil (z : Z) : Z.to_int z <> Decimal.Pos Decimal.Nil
                               /\ Z.to_int z <> Decimal.Neg Decimal.Nil.
Proof.
  destruct z as [|p|p]; simpl; split; try discriminate;
    intros H; injection H as H; now apply DecimalPos.Unsigned.to_uint_nonnil in H.
Qed.

(** Printing an integer in decimal loses nothing. *)
Lemma FormatInt_inj (a b : Z) : Go.FormatInt a = Go.FormatInt b -> a = b.
Proof.
  unfold Go.FormatInt. intros H.
  apply (f_equal NilZero.int_of_string) in H.
  destruct (to_int_not_nil a) as [Ha1 Ha2]. destruct (to_int_not_nil b) as [Hb1 Hb2].
  rewrite !NilZero.isi in H by assumption.
  injection H as H. now apply DecimalZ.to_int_inj.
Qed.

Lemma append_inj_r (x y s : string) : x +:+ s = y +:+ s -> x = y.
Proof.
  intros H.
  assert (String.length x = String.length y) as Hlen.
  { apply (f_equal String.length) in H. rewrite !length_app in H. lia. }
  revert y H Hlen. induction x as [|c x IH]; intros [|d y] H Hlen; simpl in Hlen;
    try discriminate; [reflexivity|].
  change (String c (x +:+ s) = String d (y +:+ s)) in H.
  injection H as -> H. f_equal. apply IH; [exact H | lia].
Qed.

(** X11: [postStream] records exactly one call and changes nothing else.
    Its error is nil exactly when the platform answers the request with the
    status 200 and a body that decodes, and the stream of that body is then
    the result; an answer with another status gives no stream and the error
    that names the path of the request, the account and the status. *)
Theorem postStream_outcome (accountId streamId : Z) (fields : Values) (w : World) :
  exists stream err,
    postStream accountId streamId fields w
    = Ok (stream, err)
         (add_post {| accountId := accountId; streamId := streamId; fields := fields |} w)
    /\ (err = None
        <-> exists status decoded,
            platform w (length (posts w))
              (request_of {| accountId := accountId; streamId := streamId;
                             fields := fields |})
            = Reply 200 status (Decoded decoded))
    /\ (forall status decoded,
          platform w (length (posts w))
            (request_of {| accountId := accountId; streamId := streamId;
                           fields := fields |})
          = Reply 200 status (Decoded decoded) ->
          stream = Some decoded)
    /\ (forall code status body,
          platform w (length (posts w))
            (request_of {| accountId := accountId; streamId := streamId;
                           fields := fields |})
          = Reply code status body ->
          code <> 200 ->
          stream = None
          /\ err = Some (ErrNot200 ("/v17/" +:+ streamsPath streamId) accountId status)).
Proof.
  unfold postStream.
  destruct (platform w _ _) as [e|code status body] eqn:Hp.
  - eexists _, _. split; [reflexivity|].
    split; [split; [discriminate | intros (? & ? & ?); discriminate]|].
    split; intros; discriminate.
  - destruct (Z.eqb_spec code 200) as [->|Hcode]; cbn [negb].
    + destruct body as [e|partial e|decoded]; eexists _, _; (split; [reflexivity|]).
      * split; [split; [discriminate | intros (? & ? & ?); discriminate]|].
        split; [intros; discriminate | intros ? ? ? H Hne; injection H as <- _ _; now destruct Hne].
      * split; [split; [discriminate | intros (? & ? & ?); discriminate]|].
        split; [intros; discriminate | intros ? ? ? H Hne; injection H as <- _ _; now destruct Hne].
      * split; [split; [eauto | reflexivity]|].
        split; [intros ? ? H; now injection H as _ <- | intros ? ? ? H Hne; injection H as <- _ _; now destruct Hne].
    + eexists _, _. split; [reflexivity|].
      split; [split; [discriminate | intros (? & ? & H); injection H as H; contradiction]|].
      split; [intros ? ? H; injection H as H; contradiction|].
      intros code' status' body' H _. injection H as _ <- _. split; reflexivity.
Qed.

Lemma postStream_outcome_witness :
  exists stream err,
    postStream 42 0 {[ "reason" := ["voicemail"] ]} refusing_world
    = Ok (stream, err)
         (add_post {| accountId := 42; streamId := 0;
                      fields := {[ "reason" := ["voicemail"] ]} |} refusing_world)
    /\ stream = None
    /\ err = Some (ErrNot200 "/v17/streams" 42 "500 Internal Server Error").
Proof.
  destruct (postStream_outcome 42 0 {[ "reason" := ["voicemail"] ]} refusing_world)
    as (stream & err & Hrun & _ & _ & Hstatus).
  exists stream, err. split; [exact Hrun|].
  apply (Hstatus 500 "500 Internal Server Error" (Unreadable "")); [reflexivity | lia].
Defined.

(** X12: the request tells the platform all of the call that it can use:
    two calls with the same request have the same account and the same
    fields, and the same stream id unless neither is positive (every stream
    id that is not positive makes the request that creates a stream). *)
Theorem request_of_inj (c c' : PostCall) :
  request_of c = request_of c' ->
  accountId c = accountId c'
  /\ fields c = fields c'
  /\ (streamId c = streamId c' \/ (streamId c <= 0 /\ streamId c' <= 0)).
Proof.
  unfold request_of. intros H. injection H as Hpath Hacc Hfields.
  split; [now apply FormatInt_inj|]. split; [exact Hfields|].
  unfold streamsPath in Hpath.
  destruct (Z.ltb_spec 0 (streamId c)) as [Hc|Hc];
    destruct (Z.ltb_spec 0 (streamId c')) as [Hc'|Hc'].
  - left. injection Hpath as Hpath.
    apply FormatInt_inj.
    exact (append_inj_r (Go.FormatInt (streamId c)) (Go.FormatInt (streamId c'))
             "/chunks" Hpath).
  - injection Hpath as Hpath. discriminate.
  - injection Hpath as Hpath. discriminate.
  - right. lia.
Qed.

Lemma request_of_inj_witness :
  accountId (createCall 42 "+15551230000")
  = accountId {| accountId := 42; streamId := -3;
                 fields := fields (createCall 42 "+15551230000") |}
  /\ fields (createCall 42 "+15551230000")
     = fields {| accountId := 42; streamId := -3;
                 fields := fields (createCall 42 "+15551230000") |}
  /\ (streamId (createCall 42 "+15551230000")
      = streamId {| accountId := 42; streamId := -3;
                    fields := fields (createCall 42 "+15551230000") |}
      \/ (streamId (createCall 42 "+15551230000") <= 0
          /\ streamId {| accountId := 42; streamId := -3;
                         fields := fields (createCall 42 "+15551230000") |} <= 0)).
Proof.
  apply (request_of_inj (createCall 42 "+15551230000")
           {| accountId := 42; streamId := -3;
              fields := fields (createCall 42 "+15551230000") |}).
  reflexivity.
Defined.

End Requests.

(** ** [callHandler] *)

Section Handler.

Lemma defer_log {A} (l : LogEntry) (c : M A) (w : World) :
  world_of (defer (log_Printf l) c w) = add_log l (world_of (c w))
  /\ result_of (defer (log_Printf l) c w) = result_of (c w).
Proof. unfold defer, log_Printf. destruct (c w); split; reflexivity. Qed.

Lemma deliverVoicemail_unchanged (from to audioURL : string) (retrying : bool) (w : World) :
  identities (world_of (deliverVoicemail from to audioURL retrying w)) = identities w
  /\ logs (world_of (deliverVoicemail from to audioURL retrying w)) = logs w
  /\ queryResults (world_of (deliverVoicemail from to audioURL retrying w))
     = queryResults w.
Proof.
  destruct (deliverVoicemail_attempt from to audioURL retrying w); repeat split.
Qed.

(** What the handler does with a request that is not a GET and whose form
    parses. *)
Lemma callHandler_post (r : Request) (form : Values) (w : World) :
  Method r <> "GET" ->
  ParseForm r = inl form ->
  callHandler r w
  = match deliverVoicemail (Values_Get form "From") (Values_Get form "ForwardedFrom")
            (normalizeAudioURL (Values_Get form "RecordingUrl")) false
            (add_log (LogVoicemail (Values_Get form "From")
                        (Values_Get form "ForwardedFrom")
                        (normalizeAudioURL (Values_Get form "RecordingUrl"))) w) with
    | Ok (Some e) w1 =>
        Ok None (add_log (LogHandled (Method r) (Path r)) (add_log (LogDeliverFailed e) w1))
    | Ok None w1 => Ok None (add_log (LogHandled (Method r) (Path r)) w1)
    | Panic msg w1 => Panic msg (add_log (LogHandled (Method r) (Path r)) w1)
    end.
Proof.
  intros Hget Hform. unfold callHandler, defer, logRequestTime, bind, log_Printf, ret.
  destruct (decide (Method r = "GET")) as [?|_]; [contradiction|].
  rewrite Hform. cbv beta iota.
  destruct (deliverVoicemail _ _ _ false _) as [[e|] w1|msg w1]; reflexivity.
Qed.

(** X13: the handler writes a response only to a GET, and what it writes
    is the fixed document that asks the caller for a message. *)
Theorem callHandler_response (r : Request) (w : World) :
  (result_of (callHandler r w) = Some (Some Response) <-> Method r = "GET")
  /\ (forall body, result_of (callHandler r w) = Some (Some body) -> body = Response).
Proof.
  destruct (decide (Method r = "GET")) as [Hget|Hget].
  - assert (result_of (callHandler r w) = Some (Some Response)) as Hres.
    { unfold callHandler, logRequestTime. rewrite (proj2 (defer_log _ _ w)).
      destruct (decide (Method r = "GET")) as [_|?]; [reflexivity | contradiction]. }
    rewrite Hres. split; [now split|]. intros body H. now injection H as <-.
  - assert (forall body, result_of (callHandler r w) <> Some (Some body)) as Hres.
    { intros body. destruct (ParseForm r) as [form|e] eqn:Hform.
      - rewrite (callHandler_post r form w Hget Hform).
        destruct (deliverVoicemail _ _ _ false _) as [[e|] w1|msg w1]; discriminate.
      - unfold callHandler, logRequestTime. rewrite (proj2 (defer_log _ _ w)).
        destruct (decide (Method r = "GET")) as [?|_]; [contradiction|].
        rewrite Hform. discriminate. }
    split; [split; [intros H; now apply Hres in H | contradiction]|].
    intros body H. now apply Hres in H.
Qed.

(** X14: the handler leaves the datastore and the platform alone for a
    GET, for a body that does not parse and for a call without forwarding
    number: no datastore call, no request, the same pending voicemails, and
    no panic. *)
Theorem callHandler_inert (r : Request) (w : World) :
  Method r = "GET"
  \/ (exists e, ParseForm r = inr e)
  \/ (exists form, ParseForm r = inl form /\ Values_Get form "ForwardedFrom" = "") ->
  storeOps (world_of (callHandler r w)) = storeOps w
  /\ posts (world_of (callHandler r w)) = posts w
  /\ pending (world_of (callHandler r w)) = pending w
  /\ identities (world_of (callHandler r w)) = identities w
  /\ result_of (callHandler r w) <> None.
Proof.
  intros H. destruct (decide (Method r = "GET")) as [Hget|Hget].
  - unfold callHandler, defer, logRequestTime, bind, log_Printf, ret.
    destruct (decide (Method r = "GET")) as [_|?]; [|contradiction].
    repeat split. discriminate.
  - destruct H as [H|[[e He]|(form & Hform & Hto)]]; [contradiction| |].
    + unfold callHandler, defer, logRequestTime, bind, log_Printf, ret.
      destruct (decide (Method r = "GET")) as [?|_]; [contradiction|].
      rewrite He. repeat split. discriminate.
    + rewrite (callHandler_post r form w Hget Hform), Hto.
      unfold deliverVoicemail.
      destruct (decide ("" = "")) as [_|Hne]; [|now destruct Hne].
      repeat split. discriminate.
Qed.

Lemma callHandler_inert_witness :
  posts (world_of (callHandler {| Method := "POST"; Path := "/v1/call"; Query := ∅;
                                  ParseForm := inl {[ "From" := ["+15551230000"] ]} |}
                     linked_world))
  = posts linked_world.
Proof.
  refine (proj1 (proj2 (callHandler_inert
                   {| Method := "POST"; Path := "/v1/call"; Query := ∅;
                      ParseForm := inl {[ "From" := ["+15551230000"] ]} |}
                   linked_world _))).
  right. right. exists {[ "From" := ["+15551230000"] ]}. split; reflexivity.
Defined.

(** X15: the handler only adds to the log, and the last entry that it adds
    is that of the handled request, also when the delivery panics.  For a
    request that is delivered the entries before it are the call, with the
    rewritten audio URL, and the error of the delivery if it has one. *)
Theorem callHandler_logs (r : Request) (w : World) :
  (exists entries,
     logs (world_of (callHandler r w))
     = (logs w ++ entries ++ [LogHandled (Method r) (Path r)])%list)
  /\ (forall form,
        Method r <> "GET" -> ParseForm r = inl form ->
        logs (world_of (callHandler r w))
        = (logs w
           ++ [LogVoicemail (Values_Get form "From") (Values_Get form "ForwardedFrom")
                 (normalizeAudioURL (Values_Get form "RecordingUrl"))]
           ++ match result_of (deliverVoicemail (Values_Get form "From")
                                 (Values_Get form "ForwardedFrom")
                                 (normalizeAudioURL (Values_Get form "RecordingUrl"))
                                 false
                                 (add_log (LogVoicemail (Values_Get form "From")
                                             (Values_Get form "ForwardedFrom")
                                             (normalizeAudioURL
                                                (Values_Get form "RecordingUrl"))) w)) with
              | Some (Some e) => [LogDeliverFailed e]
              | _ => []
              end
           ++ [LogHandled (Method r) (Path r)])%list).
Proof.
  assert (forall form,
            Method r <> "GET" -> ParseForm r = inl form ->
            logs (world_of (callHandler r w))
            = (logs w
               ++ [LogVoicemail (Values_Get form "From") (Values_Get form "ForwardedFrom")
                     (normalizeAudioURL (Values_Get form "RecordingUrl"))]
               ++ match result_of (deliverVoicemail (Values_Get form "From")
                                     (Values_Get form "ForwardedFrom")
                                     (normalizeAudioURL (Values_Get form "RecordingUrl"))
                                     false
                                     (add_log (LogVoicemail (Values_Get form "From")
                                                 (Values_Get form "ForwardedFrom")
                                                 (normalizeAudioURL
                                                    (Values_Get form "RecordingUrl"))) w))
                  with
                  | Some (Some e) => [LogDeliverFailed e]
                  | _ => []
                  end
               ++ [LogHandled (Method r) (Path r)])%list) as Hpost.
  { intros form Hget Hform. rewrite (callHandler_post r form w Hget Hform).
    match goal with
    | |- context [deliverVoicemail ?f ?t ?u false ?w0] =>
        destruct (deliverVoicemail_unchanged f t u false w0) as (_ & Hlogs & _);
        destruct (deliverVoicemail f t u false w0) as [[e|] w1|msg w1]
    end; simpl in Hlogs |- *; rewrite Hlogs; simpl; now rewrite <- ?app_assoc. }
  split; [|exact Hpost].
  destruct (decide (Method r = "GET")) as [Hget|Hget].
  - exists [LogIncomingCall (Query r)].
    unfold callHandler, defer, logRequestTime, bind, log_Printf, ret.
    destruct (decide (Method r = "GET")) as [_|?]; [|contradiction].
    simpl. now rewrite <- app_assoc.
  - destruct (ParseForm r) as [form|e] eqn:Hform.
    + eexists. rewrite (Hpost form Hget eq_refl). rewrite (app_assoc [_]). reflexivity.
    + exists [LogParseFailed e].
      unfold callHandler, defer, logRequestTime, bind, log_Printf, ret.
      destruct (decide (Method r = "GET")) as [?|_]; [contradiction|].
      rewrite Hform. simpl. now rewrite <- app_assoc.
Qed.

Lemma callHandler_logs_witness :
  logs (world_of (callHandler {| Method := "POST"; Path := "/v1/call"; Query := ∅;
                                 ParseForm := inl {[ "From" := ["+15551230000"];
                                                     "ForwardedFrom" := ["+15559998888"];
                                                     "RecordingUrl" := ["https://h/rec123"] ]} |}
                    quiet))
  = [ LogVoicemail "+15551230000" "+15559998888" "https://h/rec123.mp3";
      LogDeliverFailed (ErrStoredPending "+15559998888" 1);
      LogHandled "POST" "/v1/call" ].
Proof.
  refine (proj2 (callHandler_logs
                   {| Method := "POST"; Path := "/v1/call"; Query := ∅;
                      ParseForm := inl {[ "From" := ["+15551230000"];
                                          "ForwardedFrom" := ["+15559998888"];
                                          "RecordingUrl" := ["https://h/rec123"] ]} |}
                   quiet)
                {[ "From" := ["+15551230000"];
                   "ForwardedFrom" := ["+15559998888"];
                   "RecordingUrl" := ["https://h/rec123"] ]} _ _).
  - discriminate.
  - reflexivity.
Defined.

End Handler.

Section HandlerAudio.

(** The audio URL of a delivery is the only one that it stores or posts. *)
Lemma deliverVoicemail_audio (from to audioURL : string) (retrying : bool) (w : World) :
  (forall k v,
     pending (world_of (deliverVoicemail from to audioURL retrying w)) !! k = Some v ->
     pending w !! k = Some v \/ AudioURL v = audioURL)
  /\ exists new,
      posts (world_of (deliverVoicemail from to audioURL retrying w))
      = (posts w ++ new)%list
      /\ forall c x, c ∈ new -> fields c !! "audio_url" = Some x -> x = [audioURL].
Proof.
  destruct (deliverVoicemail_attempt from to audioURL retrying w)
    as [| | fi ti id Hto Hpair Hti Hretry Hpos Hfresh | | | | |]; simpl.
  1,2,4,5: split; [auto|]; exists []; rewrite app_nil_r;
    (split; [reflexivity | intros c x Hc; now apply elem_of_nil in Hc]).
  - split.
    + intros k v Hk. destruct (decide (k = (id, ""))) as [->|Hne].
      * rewrite lookup_insert_eq in Hk. injection Hk as <-. now right.
      * rewrite lookup_insert_ne in Hk by congruence. now left.
    + exists []. rewrite app_nil_r.
      split; [reflexivity | intros c x Hc; now apply elem_of_nil in Hc].
  - split; [auto|]. eexists [_]. split; [reflexivity|].
    intros c x Hc Hx. apply list_elem_of_singleton in Hc as ->.
    rewrite directCall_audio in Hx. now injection Hx as <-.
  - split; [auto|]. eexists [_]. split; [reflexivity|].
    intros c x Hc Hx. apply list_elem_of_singleton in Hc as ->.
    rewrite createCall_no_audio in Hx. discriminate.
  - split; [auto|]. eexists [_; _]. rewrite <- app_assoc. split; [reflexivity|].
    intros c x Hc Hx. apply elem_of_cons in Hc as [->|Hc].
    + rewrite createCall_no_audio in Hx. discriminate.
    + apply list_elem_of_singleton in Hc as ->.
      rewrite appendCall_audio in Hx. now injection Hx as <-.
Qed.

(** X16: whatever the handler stores or posts for a completed call has the
    rewritten recording URL: its extension is never absent and never
    [.wav], every pending voicemail that was not stored before has it as
    its audio URL, and every request that the handler adds with a field
    [audio_url] has it as the value. *)
Theorem callHandler_audio (r : Request) (form : Values) (w : World) :
  Method r <> "GET" ->
  ParseForm r = inl form ->
  Go.Ext (normalizeAudioURL (Values_Get form "RecordingUrl")) <> ""
  /\ Go.Ext (normalizeAudioURL (Values_Get form "RecordingUrl")) <> ".wav"
  /\ (forall k v,
        pending (world_of (callHandler r w)) !! k = Some v ->
        pending w !! k = Some v
        \/ AudioURL v = normalizeAudioURL (Values_Get form "RecordingUrl"))
  /\ exists new,
      posts (world_of (callHandler r w)) = (posts w ++ new)%list
      /\ forall c x,
          c ∈ new -> fields c !! "audio_url" = Some x ->
          x = [normalizeAudioURL (Values_Get form "RecordingUrl")].
Proof.
  intros Hget Hform.
  assert (Go.Ext (normalizeAudioURL (Values_Get form "RecordingUrl")) <> ""
          /\ Go.Ext (normalizeAudioURL (Values_Get form "RecordingUrl")) <> ".wav")
    as [H1 H2].
  { destruct (decide (Go.Ext (Values_Get form "RecordingUrl") = ""
                      \/ Go.Ext (Values_Get form "RecordingUrl") = ".wav")) as [H|H].
    - destruct (normalize_rewritten _ H) as [_ ->]. split; discriminate.
    - rewrite normalize_kept; tauto. }
  split; [exact H1|]. split; [exact H2|].
  rewrite (callHandler_post r form w Hget Hform).
  match goal with
  | |- context [deliverVoicemail ?f ?t ?u false ?w0] =>
      destruct (deliverVoicemail_audio f t u false w0) as (Hpend & new & Hposts & Hnew);
      destruct (deliverVoicemail f t u false w0) as [[e|] w1|msg w1]
  end; simpl in Hpend, Hposts |- *; (split; [exact Hpend | exists new; split; assumption]).
Qed.

Lemma callHandler_audio_witness :
  Go.Ext (normalizeAudioURL "https://h/rec123.wav") <> ".wav"
  /\ pending (world_of (callHandler
                          {| Method := "POST"; Path := "/v1/call"; Query := ∅;
                             ParseForm := inl {[ "From" := ["+15551230000"];
                                                 "ForwardedFrom" := ["+15559998888"];
                                                 "RecordingUrl" := ["https://h/rec123.wav"] ]} |}
                          quiet)) !! (1, "")
     = Some waiting.
Proof.
  destruct (callHandler_audio
              {| Method := "POST"; Path := "/v1/call"; Query := ∅;
                 ParseForm := inl {[ "From" := ["+15551230000"];
                                     "ForwardedFrom" := ["+15559998888"];
                                     "RecordingUrl" := ["https://h/rec123.wav"] ]} |}
              {[ "From" := ["+15551230000"];
                 "ForwardedFrom" := ["+15559998888"];
                 "RecordingUrl" := ["https://h/rec123.wav"] ]}
              quiet) as (_ & Hext & _ & _).
  - discriminate.
  - reflexivity.
  - split; [exact Hext | reflexivity].
Defined.

End HandlerAudio.

(** ** The flush as a whole *)

Section FlushLoop.

Lemma flushLoop_error_forever_witness :
  flushLoop 7 always_fails (0 + 0) (waiting_world always_fails) = None.
Proof.
  refine (flushLoop_error_forever always_fails 0 _ 7 0%nat (waiting_world always_fails)).
  intros j _. exists "datastore: unavailable". reflexivity.
Defined.

Lemma flushLoop_more_fuel (t : Iterator) (fuel : nat) :
  forall i w r, flushLoop fuel t i w = Some r -> flushLoop (S fuel) t i w = Some r.
Proof.
  induction fuel as [|fuel IH]; intros i w r H; [discriminate|].
  cbn [flushLoop] in H |- *. fold (flushLoop (S fuel)).
  destruct (t i) as [|e|key voicemail]; [exact H | now apply IH |].
  destruct (deliverPendingVoicemail key voicemail w) as [[e|] w'|msg w'];
    [now apply IH | now apply IH | exact H].
Qed.

(** X17: the flush ends when the iterator is done.  If the call [n] of
    [Next] returns [Done], the loop has a result with fuel for [n + 1]
    calls, and more fuel gives the same result. *)
Theorem flushLoop_result (t : Iterator) (n : nat) (w : World) :
  t n = Done ->
  exists r,
    flushLoop (S n) t 0 w = Some r
    /\ forall fuel, (n < fuel)%nat -> flushLoop fuel t 0 w = Some r.
Proof.
  intros Hdone.
  destruct (flushLoop_ends t n Hdone n 0%nat w) as [r Hr]; [lia|].
  exists r. split; [exact Hr|].
  intros fuel Hfuel. replace fuel with (S n + (fuel - S n))%nat by lia.
  induction (fuel - S n)%nat as [|k IH].
  - now rewrite Nat.add_0_r.
  - rewrite Nat.add_succ_r. now apply flushLoop_more_fuel.
Qed.

Lemma flushLoop_result_witness :
  exists r,
    flushLoop 2 one_record 0 (waiting_world one_record) = Some r
    /\ forall fuel, (1 < fuel)%nat ->
                    flushLoop fuel one_record 0 (waiting_world one_record) = Some r.
Proof.
  apply (flushLoop_result one_record 1 (waiting_world one_record)).
  reflexivity.
Defined.

(** What the processing of one voicemail can change. *)
Lemma deliverPendingVoicemail_world (key : Key) (voicemail : PendingVoicemail) (w : World) :
  logs (world_of (deliverPendingVoicemail key voicemail w)) = logs w
  /\ identities (world_of (deliverPendingVoicemail key voicemail w)) = identities w
  /\ (pending (world_of (deliverPendingVoicemail key voicemail w)) = pending w
      \/ exists k,
          pending (world_of (deliverPendingVoicemail key voicemail w))
          = <[k := setDelivered voicemail]> (pending w)).
Proof.
  rewrite deliverPendingVoicemail_cases.
  destruct (deliverVoicemail_unchanged (From voicemail) (To voicemail)
              (AudioURL voicemail) true w) as (Hid & Hlogs & _).
  destruct (deliver_retry_effects (From voicemail) (To voicemail) (AudioURL voicemail) w)
    as [Hpending _].
  destruct (deliverVoicemail _ _ _ true w) as [[e|] w1|msg w1];
    simpl in Hid, Hlogs, Hpending |- *; auto.
  unfold store_Put. destruct (storeFault w1 (storeOps w1)); simpl; [auto|].
  rewrite Hpending. split; [exact Hlogs|]. split; [exact Hid|]. right. eauto.
Qed.

Lemma marks_only_refl (t : Iterator) p : marks_only t p p.
Proof. split; eauto. Qed.

Lemma marks_only_trans (t : Iterator) p1 p2 p3 :
  marks_only t p1 p2 -> marks_only t p2 p3 -> marks_only t p1 p3.
Proof.
  intros [A1 B1] [A2 B2]. split.
  - intros k v Hk. destruct (A1 k v Hk) as (v' & Hk' & Hv').
    destruct (A2 k v' Hk') as (v'' & Hk'' & Hv''). exists v''. split; [exact Hk''|].
    destruct Hv'' as [->|?]; [exact Hv' | now right].
  - intros k v Hk. destruct (B2 k v Hk) as [Hk'|?]; [now apply B1 | now right].
Qed.

Lemma marks_only_insert (t : Iterator) p k j key voicemail :
  t j = Next key voicemail -> marks_only t p (<[k := setDelivered voicemail]> p).
Proof.
  intros Ht. split.
  - intros k' v Hk'. destruct (decide (k = k')) as [->|Hne].
    + exists (setDelivered voicemail). rewrite lookup_insert_eq. split; [reflexivity | now right].
    + exists v. rewrite lookup_insert_ne by exact Hne. auto.
  - intros k' v' Hk'. destruct (decide (k = k')) as [->|Hne].
    + rewrite lookup_insert_eq in Hk'. injection Hk' as <-. right. eauto.
    + rewrite lookup_insert_ne in Hk' by exact Hne. now left.
Qed.

(** X19: a flush never removes a pending voicemail and never writes one
    that is not delivered.  Whatever the iterator returns, a stored
    voicemail is still stored under its key afterwards, unchanged or
    delivered, so that a delivered one stays delivered; every voicemail
    that is new or changed is one that the iterator returned, marked
    delivered; and the identities are the same. *)
Theorem flushLoop_marks_only (t : Iterator) (fuel : nat) :
  forall i w r,
    flushLoop fuel t i w = Some r ->
    marks_only t (pending w) (pending (world_of r))
    /\ identities (world_of r) = identities w.
Proof.
  induction fuel as [|fuel IH]; intros i w r H; [discriminate|].
  cbn [flushLoop] in H.
  destruct (t i) as [|e|key voicemail] eqn:Ht.
  - injection H as <-. split; [apply marks_only_refl | reflexivity].
  - apply IH in H. exact H.
  - destruct (deliverPendingVoicemail_world key voicemail w) as (_ & Hid & Hpending).
    assert (marks_only t (pending w)
              (pending (world_of (deliverPendingVoicemail key voicemail w)))) as Hstep.
    { destruct Hpending as [->|[k ->]];
        [apply marks_only_refl | eapply marks_only_insert; exact Ht]. }
    destruct (deliverPendingVoicemail key voicemail w) as [[e|] w'|msg w'];
      simpl in Hid, Hstep.
    + apply IH in H as [Hm Hi]. simpl in Hm, Hi.
      split; [eapply marks_only_trans; eassumption | congruence].
    + apply IH in H as [Hm Hi]. simpl in Hm, Hi.
      split; [eapply marks_only_trans; eassumption | congruence].
    + injection H as <-. simpl. split; assumption.
Qed.

Lemma flushLoop_marks_only_witness :
  marks_only one_record (pending (waiting_world one_record))
    (pending (world_of (Ok tt
       (add_log (LogPendingDelivered "+15559998888")
          (world_of (deliverPendingVoicemail (IDKey "PendingVoicemail" 5) waiting
                       (waiting_world one_record)))))))
  /\ identities (world_of (Ok tt
       (add_log (LogPendingDelivered "+15559998888")
          (world_of (deliverPendingVoicemail (IDKey "PendingVoicemail" 5) waiting
                       (waiting_world one_record))))))
     = identities (waiting_world one_record).
Proof.
  apply (flushLoop_marks_only one_record 2 0 (waiting_world one_record)).
  vm_compute. reflexivity.
Defined.

End FlushLoop.

Section FlushLog.

(** X20: a flush that returns has stopped at the first [Done] of the
    iterator and has logged exactly one entry for every result before it:
    the error of [Next], the error of the delivery, or the delivery. *)
Theorem flushLoop_logs (t : Iterator) (fuel : nat) :
  forall i w w',
    flushLoop fuel t i w = Some (Ok tt w') ->
    exists n,
      t (i + n)%nat = Done
      /\ (forall j, (j < n)%nat -> t (i + j)%nat <> Done)
      /\ length (logs w') = (length (logs w) + n)%nat.
Proof.
  assert (forall n i,
            t (S i + n)%nat = Done ->
            t i <> Done ->
            (forall j, (j < n)%nat -> t (S i + j)%nat <> Done) ->
            t (i + S n)%nat = Done
            /\ forall j, (j < S n)%nat -> t (i + j)%nat <> Done) as Hshift.
  { intros n i Hd H0 Hj. split; [now rewrite Nat.add_succ_r|].
    intros [|j] Hlt; [now rewrite Nat.add_0_r|].
    rewrite Nat.add_succ_r. apply Hj. lia. }
  induction fuel as [|fuel IH]; intros i w w' H; [discriminate|].
  cbn [flushLoop] in H.
  destruct (t i) as [|e|key voicemail] eqn:Ht.
  - injection H as <-. exists 0%nat. rewrite Nat.add_0_r.
    split; [exact Ht|]. split; [intros j Hj; lia | lia].
  - apply IH in H as (n & Hd & Hj & Hlen).
    exists (S n). destruct (Hshift n i Hd) as [H1 H2]; [congruence | exact Hj |].
    split; [exact H1|]. split; [exact H2|].
    rewrite Hlen. cbn [logs add_log]. rewrite List.length_app. simpl. lia.
  - destruct (deliverPendingVoicemail_world key voicemail w) as (Hlogs & _ & _).
    destruct (deliverPendingVoicemail key voicemail w) as [[e|] w1|msg w1];
      simpl in Hlogs; [| |discriminate].
    + apply IH in H as (n & Hd & Hj & Hlen).
      exists (S n). destruct (Hshift n i Hd) as [H1 H2]; [congruence | exact Hj |].
      split; [exact H1|]. split; [exact H2|].
      rewrite Hlen. cbn [logs add_log]. rewrite List.length_app, Hlogs. simpl. lia.
    + apply IH in H as (n & Hd & Hj & Hlen).
      exists (S n). destruct (Hshift n i Hd) as [H1 H2]; [congruence | exact Hj |].
      split; [exact H1|]. split; [exact H2|].
      rewrite Hlen. cbn [logs add_log]. rewrite List.length_app, Hlogs. simpl. lia.
Qed.

Lemma flushLoop_logs_witness :
  exists n,
    error_then_record (0 + n)%nat = Done
    /\ (forall j, (j < n)%nat -> error_then_record (0 + j)%nat <> Done)
    /\ length (logs (add_log (LogPendingDelivered "+15559998888")
                       (world_of (deliverPendingVoicemail (IDKey "PendingVoicemail" 5)
                                    waiting
                                    (add_log (LogGetPendingFailed
                                                "datastore: cannot load field")
                                       (waiting_world error_then_record))))))
       = (length (logs (waiting_world error_then_record)) + n)%nat.
Proof.
  apply (flushLoop_logs error_then_record 3 0 (waiting_world error_then_record)).
  vm_compute. reflexivity.
Defined.

(** A retry in a world where every stored identity is available has an
    error and changes nothing but the count of datastore calls. *)
Lemma deliverVoicemail_nobody_linked (from to audioURL : string) (w : World) :
  (forall k identity, identities w !! k = Some identity -> Available identity = true) ->
  exists e w1,
    deliverVoicemail from to audioURL true w = Ok (Some e) w1
    /\ pending w1 = pending w /\ posts w1 = posts w /\ identities w1 = identities w.
Proof.
  intros Hall.
  assert (forall fi ti,
            getIdentityPair (senderOf from) to w = Ok (fi, Some ti, None) (tick (tick w)) ->
            Available ti = false -> False) as Hno.
  { intros fi ti Hpair Hti.
    destruct (getIdentityPair_sound _ _ _ _ _ _ _ Hpair) as [_ Hb].
    destruct (Hb ti eq_refl) as [_ Hstored].
    apply Hall in Hstored. congruence. }
  destruct (deliverVoicemail_attempt from to audioURL true w);
    try discriminate; try (exfalso; eapply Hno; eassumption);
    eexists _, _; (split; [reflexivity|]); repeat split.
Qed.

(** X21: while no stored identity has [Available = false], a flush
    delivers nothing: whatever the iterator returns and whatever fails, a
    flush that ends has not panicked, has made no request to the platform
    and has left every pending voicemail as it was. *)
Theorem flushLoop_nobody_linked (t : Iterator) (fuel : nat) :
  forall i w r,
    (forall k identity, identities w !! k = Some identity -> Available identity = true) ->
    flushLoop fuel t i w = Some r ->
    result_of r = Some tt
    /\ posts (world_of r) = posts w
    /\ pending (world_of r) = pending w.
Proof.
  induction fuel as [|fuel IH]; intros i w r Hall H; [discriminate|].
  cbn [flushLoop] in H.
  destruct (t i) as [|e|key voicemail] eqn:Ht.
  - injection H as <-. repeat split.
  - apply IH in H; [exact H | exact Hall].
  - destruct (deliverVoicemail_nobody_linked (From voicemail) (To voicemail)
                (AudioURL voicemail) w Hall) as (e & w1 & Hrun & Hpending & Hposts & Hid).
    assert (deliverPendingVoicemail key voicemail w = Ok (Some e) w1) as Hstep.
    { rewrite deliverPendingVoicemail_cases, Hrun. reflexivity. }
    rewrite Hstep in H.
    apply IH in H as (Hres & Hp & Hq).
    + simpl in Hp, Hq. repeat split; congruence.
    + intros k identity. simpl. rewrite Hid. apply Hall.
Qed.

Lemma flushLoop_nobody_linked_witness :
  result_of (Ok tt
     (add_log (LogPendingFailed (ErrStillNoAccount "+15559998888"))
        (tick (tick (with_queryResults one_record
                       (with_pending queue
                          (with_identities recipient_available quiet)))))))
  = Some tt
  /\ posts (world_of (Ok tt
        (add_log (LogPendingFailed (ErrStillNoAccount "+15559998888"))
           (tick (tick (with_queryResults one_record
                          (with_pending queue
                             (with_identities recipient_available quiet))))))))
     = posts (with_queryResults one_record
                (with_pending queue (with_identities recipient_available quiet)))
  /\ pending (world_of (Ok tt
        (add_log (LogPendingFailed (ErrStillNoAccount "+15559998888"))
           (tick (tick (with_queryResults one_record
                          (with_pending queue
                             (with_identities recipient_available quiet))))))))
     = pending (with_queryResults one_record
                  (with_pending queue (with_identities recipient_available quiet))).
Proof.
  apply (flushLoop_nobody_linked one_record 2 0
           (with_queryResults one_record
              (with_pending queue (with_identities recipient_available quiet)))).
  - intros k identity Hk. simpl in Hk. unfold recipient_available in Hk.
    apply lookup_singleton_Some in Hk as [_ <-]. reflexivity.
  - vm_compute. reflexivity.
Defined.

End FlushLog.

(** ** The shapes of the recording URL *)

Section Shapes.

Lemma plain_wav : plain "wav".
Proof.
  intros [|[|[|j]]] c H; simpl in H; try discriminate;
    injection H as <-; split; discriminate.
Qed.

(** X22: the rewrite by the shape of the URL, where [e] has no dot and no
    slash.  A URL that ends in [.wav] gets [.mp3] in its place, whatever
    comes before; a URL whose last path element is [e] gets [.mp3] added,
    dots in the host or in the directories notwithstanding; and a URL that
    ends in a dot and [e], [e] not being [wav], is kept, be [e] empty,
    [WAV] or [wav] with a query after it. *)
Theorem normalizeAudioURL_shapes (b e : string) :
  normalizeAudioURL (b +:+ ".wav") = b +:+ ".mp3"
  /\ (plain e -> normalizeAudioURL e = e +:+ ".mp3")
  /\ (plain e -> normalizeAudioURL (b +:+ "/" +:+ e) = b +:+ "/" +:+ e +:+ ".mp3")
  /\ (plain e -> e <> "wav" -> normalizeAudioURL (b +:+ "." +:+ e) = b +:+ "." +:+ e).
Proof.
  assert (forall u, Go.Ext u = "" -> normalizeAudioURL u = u +:+ ".mp3") as Hnone.
  { intros u Hu. destruct (normalize_rewritten u (or_introl Hu)) as [-> _].
    rewrite Hu. unfold Go.slice_to. simpl String.length.
    now rewrite Nat.sub_0_r, substring_all. }
  split; [|split; [|split]].
  - pose proof (Ext_dot_plain b "wav" plain_wav) as Hext.
    change (b +:+ "." +:+ "wav") with (b +:+ ".wav") in Hext.
    change ("." +:+ "wav") with ".wav" in Hext.
    destruct (normalize_rewritten _ (or_intror Hext)) as [-> _].
    pose proof (Ext_split (b +:+ ".wav")) as Hsplit. rewrite Hext in Hsplit |- *.
    apply append_inj_r in Hsplit. now rewrite Hsplit.
  - intros He. apply Hnone. now apply Ext_plain.
  - intros He. rewrite Hnone by now apply Ext_slash_plain.
    clear. induction b as [|c b IH]; [reflexivity|].
    change (String c ((b +:+ "/" +:+ e) +:+ ".mp3") = String c (b +:+ "/" +:+ e +:+ ".mp3")).
    now rewrite IH.
  - intros He Hwav. apply normalize_kept; rewrite (Ext_dot_plain b e He).
    + discriminate.
    + intros H. injection H as H. contradiction.
Qed.

Lemma normalizeAudioURL_shapes_witness :
  normalizeAudioURL ("https://api.host.com/2010-04-01" +:+ "/" +:+ "rec123")
  = "https://api.host.com/2010-04-01" +:+ "/" +:+ "rec123" +:+ ".mp3".
Proof.
  refine (proj1 (proj2 (proj2 (normalizeAudioURL_shapes
                                 "https://api.host.com/2010-04-01" "rec123"))) _).
  intros j c H.
  destruct j as [|[|[|[|[|[|j]]]]]]; simpl in H; try discriminate;
    injection H as <-; split; discriminate.
Defined.

End Shapes.
